(** * DRIP Telegram bot: the report handlers of [drip_telegram_bot.py]

    A shallow embedding of the two report handlers ([handle_volume],
    [handle_ratio]) and of the command wrappers, with the theorems that
    settle what the specification says about them.

    Python values are the objects [resp.json()] builds; a Python [float]
    is an IEEE-754 binary64 number, which is what Rocq's primitive [float]
    is, so comparisons and arithmetic are the machine's own (NaN and the
    infinities included).  Exceptions are values of [pyexn]; an expression
    that may raise has type [result A].

    A handler run is its list of events (the request it made, the reply it
    sent) and the exception it ended with, if any.  The market-data service
    is a function from the URL to what the request returned; logging and
    the delivery of a reply by the bot framework are outside the model. *)

From Stdlib Require Import Floats ZArith List String Ascii Bool Lia.
From Stdlib Require Import DecimalString Permutation Sorted.
Import ListNotations.

Set Warnings "-register-all".

Open Scope string_scope.
Open Scope list_scope.

(** ** Python objects and exceptions *)

(** What [json.loads] returns: [None], [bool], [int] (unbounded), [float],
    [str], [list] and [dict].  A dict is kept as its items in order (the keys
    of a decoded object are distinct); a lookup takes the first item with
    the key. *)
Inductive pyobj : Type :=
| PyNone
| PyBool (b : bool)
| PyInt (z : Z)
| PyFloat (f : float)
| PyStr (s : string)
| PyList (items : list pyobj)
| PyDict (items : list (string * pyobj)).

(** The exception classes the handlers can meet while reading a response. *)
Inductive pyexn : Type :=
| AttributeError
| TypeError
| ValueError
| OverflowError.

(** An expression either raises or yields a value. *)
Definition result (A : Type) : Type := (pyexn + A)%type.

Definition ret {A : Type} (a : A) : result A := inr a.
Definition raise {A : Type} (e : pyexn) : result A := inl e.

Definition bind {A B : Type} (m : result A) (k : A -> result B) : result B :=
  match m with
  | inl e => inl e
  | inr a => k a
  end.

Notation "x <- m ;; k" := (bind m (fun x => k))
  (at level 61, m at next level, right associativity).

(** [mapM f l]: [f] applied from left to right, stopping at the first raise. *)
Fixpoint mapM {A B : Type} (f : A -> result B) (l : list A) : result (list B) :=
  match l with
  | [] => ret []
  | a :: l' => b <- f a ;; bs <- mapM f l' ;; ret (b :: bs)
  end.

(** ** Floats *)

Definition fzero : float := 0%float.

(** [x > 0] on floats: false for NaN. *)
Definition gt0 (x : float) : bool := PrimFloat.ltb fzero x.

(** [x >= y]. *)
Definition fge (x y : float) : bool := PrimFloat.leb y x.

(** [float(n)] for an int: the nearest double, ties to even; an int too
    large for a double raises [OverflowError]. *)
Definition float_of_int (z : Z) : result float :=
  match binary_normalize prec emax z 0 false with
  | S754_infinity _ => raise OverflowError
  | sf => ret (SF2Prim sf)
  end.

(** ** Strings: the [str] methods the handlers call

    A [str] is modelled by the bytes of its UTF-8 encoding.  [str.strip],
    [str.upper] and [str.lower] are Python's and know all of Unicode; the
    handlers take them from the runtime (see [PyRuntime]).  What they do on
    ASCII strings is written out here: [strip] removes the ASCII whitespace
    characters (tab to carriage return, the four separators 28 to 31, and
    the space) from both ends, [upper] and [lower] map the 26 letters. *)

Definition is_ascii_char (c : ascii) : bool := (nat_of_ascii c <? 128)%nat.

Fixpoint is_ascii (s : string) : bool :=
  match s with
  | EmptyString => true
  | String c s' => is_ascii_char c && is_ascii s'
  end.

Definition is_space (c : ascii) : bool :=
  let n := nat_of_ascii c in
  ((9 <=? n) && (n <=? 13) || (28 <=? n) && (n <=? 32))%nat.

Fixpoint lstrip_by (space : ascii -> bool) (s : string) : string :=
  match s with
  | String c s' => if space c then lstrip_by space s' else s
  | EmptyString => EmptyString
  end.

Fixpoint rstrip_by (space : ascii -> bool) (s : string) : string :=
  match s with
  | EmptyString => EmptyString
  | String c s' =>
      match rstrip_by space s' with
      | EmptyString => if space c then EmptyString else String c EmptyString
      | r => String c r
      end
  end.

Definition strip_by (space : ascii -> bool) (s : string) : string :=
  rstrip_by space (lstrip_by space s).

Definition ascii_strip (s : string) : string := strip_by is_space s.

Definition upper_char (c : ascii) : ascii :=
  let n := nat_of_ascii c in
  if ((97 <=? n) && (n <=? 122))%nat then ascii_of_nat (n - 32) else c.

Definition lower_char (c : ascii) : ascii :=
  let n := nat_of_ascii c in
  if ((65 <=? n) && (n <=? 90))%nat then ascii_of_nat (n + 32) else c.

Fixpoint map_string (f : ascii -> ascii) (s : string) : string :=
  match s with
  | EmptyString => EmptyString
  | String c s' => String (f c) (map_string f s')
  end.

Definition ascii_upper (s : string) : string := map_string upper_char s.
Definition ascii_lower (s : string) : string := map_string lower_char s.

(** ["\n".join(lines)] and friends. *)
Fixpoint join (sep : string) (lines : list string) : string :=
  match lines with
  | [] => ""
  | [l] => l
  | l :: rest => l ++ sep ++ join sep rest
  end.

Definition nl : string := String (ascii_of_nat 10) EmptyString.

(** [str(n)] for a length. *)
Definition str_of_nat (n : nat) : string :=
  NilEmpty.string_of_uint (Nat.to_uint n).

(** ** Object operations *)

(** [obj.get(key, default)]: only a dict has [get]. *)
Fixpoint lookup (key : string) (items : list (string * pyobj)) : option pyobj :=
  match items with
  | [] => None
  | (k, v) :: rest => if String.eqb k key then Some v else lookup key rest
  end.

Definition py_get (obj : pyobj) (key : string) (default : pyobj) : result pyobj :=
  match obj with
  | PyDict items =>
      match lookup key items with
      | Some v => ret v
      | None => ret default
      end
  | _ => raise AttributeError
  end.

(** Truth value of an object ([bool(x)]); NaN is true, both zeros are false. *)
Definition truthy (v : pyobj) : bool :=
  match v with
  | PyNone => false
  | PyBool b => b
  | PyInt z => negb (Z.eqb z 0)
  | PyFloat f => negb (PrimFloat.eqb f fzero)
  | PyStr s => negb (String.eqb s "")
  | PyList l => match l with [] => false | _ => true end
  | PyDict d => match d with [] => false | _ => true end
  end.

(** [a or b]. *)
Definition py_or (a b : pyobj) : pyobj := if truthy a then a else b.

(** [for p in obj]: the items of a list, the keys of a dict, the characters
    of a str (one str per byte of the encoding here; every item is a str
    either way, which is all the handlers can observe); nothing else is
    iterable. *)
Definition py_iter (obj : pyobj) : result (list pyobj) :=
  match obj with
  | PyList l => ret l
  | PyDict d => ret (map (fun kv => PyStr (fst kv)) d)
  | PyStr s => ret (map (fun c => PyStr (String c EmptyString)) (list_ascii_of_string s))
  | _ => raise TypeError
  end.

(** ** The sort behind [sorted(..., reverse=True)]

    Python's sort compares keys with [<] only and is stable; with
    [reverse=True] equal keys still keep their input order.  Where [<] orders
    the keys totally (no NaN among them) every stable sort returns the same
    list, the one this insertion sort builds. *)

Fixpoint insert_desc {A : Type} (x : float * A) (l : list (float * A)) : list (float * A) :=
  match l with
  | [] => [x]
  | y :: l' => if PrimFloat.ltb (fst x) (fst y) then y :: insert_desc x l' else x :: l
  end.

Definition stable_sort_desc {A : Type} (l : list (float * A)) : list (float * A) :=
  fold_right insert_desc [] l.

Definition key_ok {A : Type} (x : float * A) : Prop := PrimFloat.is_nan (fst x) = false.

(** ** What the handlers take from the Python runtime

    [float] on a str, the two format specifications, the list sort and the
    str methods [strip], [upper] and [lower] are Python's, not the
    repository's.  The handlers are written over any runtime with these
    operations.  The sort is known by its contract: it permutes its input,
    and on NaN-free keys it is the stable descending sort.  The str methods
    are known by what they do on ASCII strings; on other strings they are
    whatever Python's Unicode tables make them. *)
Class PyRuntime : Type := {
  (** [s.strip()], [s.upper()], [s.lower()] *)
  strip : string -> string;
  upper : string -> string;
  lower : string -> string;
  strip_on_ascii : forall s, is_ascii s = true -> strip s = ascii_strip s;
  upper_on_ascii : forall s, is_ascii s = true -> upper s = ascii_upper s;
  lower_on_ascii : forall s, is_ascii s = true -> lower s = ascii_lower s;
  (** [float(s)] for a str; [None] when it raises [ValueError] *)
  str_to_float : string -> option float;
  (** [format(x, ",.2f")] *)
  format_grouped_2f : float -> string;
  (** [format(x, ".2%")] *)
  format_percent_2 : float -> string;
  (** [sorted(l, key=lambda x: x[0], reverse=True)] on float keys *)
  sorted_reverse : forall A : Type, list (float * A) -> list (float * A);
  sorted_reverse_perm :
    forall (A : Type) (l : list (float * A)), Permutation l (sorted_reverse A l);
  sorted_reverse_stable :
    forall (A : Type) (l : list (float * A)),
      Forall key_ok l -> sorted_reverse A l = stable_sort_desc l
}.

Arguments sorted_reverse {_ A} l.

(** [obj.strip()]: only a str has [strip]. *)
Definition py_strip {rt : PyRuntime} (obj : pyobj) : result string :=
  match obj with
  | PyStr s => ret (strip s)
  | _ => raise AttributeError
  end.

(** ** Events and outcomes of a handler run *)

Inductive event : Type :=
| Fetch (url : string)
| Reply (text : string) (markdown : bool).

(** What a handler did before it returned or raised. *)
Record outcome : Type := {
  events : list event;
  raised : option pyexn
}.

Definition icon_for (i : nat) : string :=
  match i with
  | 0 => "🥇"
  | 1 => "🥈"
  | 2 => "🥉"
  | _ => "💰"
  end.

(** [{a, b} == {c, d}] on two-element set displays. *)
Definition set2_eqb (a b c d : string) : bool :=
  (String.eqb a c || String.eqb a d) && (String.eqb b c || String.eqb b d)
  && (String.eqb c a || String.eqb c b) && (String.eqb d a || String.eqb d b).

(** The state of the rendering loop of [handle_volume]. *)
Record loop_state : Type := {
  lines : list string;
  total_volume : float;
  sol_ray_vol : float
}.

Section Handlers.

Context {rt : PyRuntime}.

(** The market-data service: for a URL, the description of the exception
    the request raised, or the decoded JSON body. *)
Variable http_get_json : string -> string + pyobj.

(** [float(v)]. *)
Definition py_float (v : pyobj) : result float :=
  match v with
  | PyFloat f => ret f
  | PyInt z => float_of_int z
  | PyBool b => ret (if b then 1%float else fzero)
  | PyStr s =>
      match str_to_float s with
      | Some f => ret f
      | None => raise ValueError
      end
  | PyNone | PyList _ | PyDict _ => raise TypeError
  end.

Definition format_usd (val : pyobj) : string :=
  match py_float val with
  | inr f => "$" ++ format_grouped_2f f
  | inl _ => "N/A"
  end.

Definition format_pct (val : pyobj) : string :=
  match val with
  | PyFloat f => format_percent_2 f
  | PyInt _ | PyBool _ =>
      match py_float val with
      | inr f => format_percent_2 f
      | inl _ => "N/A"
      end
  | _ => "N/A"
  end.

Definition fetch_url (contract_address : string) : string :=
  "https://api.dexscreener.com/latest/dex/tokens/" ++ contract_address.

Definition fetch_token_endpoint (contract_address : string) : string + pyobj :=
  http_get_json (fetch_url contract_address).

(** [float(p.get(outer, {}).get(inner) or 0)]. *)
Definition nested_float (outer inner : string) (p : pyobj) : result float :=
  o <- py_get p outer (PyDict []) ;;
  v <- py_get o inner PyNone ;;
  py_float (py_or v (PyInt 0)).

Definition liquidity_usd : pyobj -> result float := nested_float "liquidity" "usd".
Definition volume_h24 : pyobj -> result float := nested_float "volume" "h24".

(** [(p.get(outer, {}).get("symbol") or "?").strip()]. *)
Definition token_symbol (outer : string) (p : pyobj) : result string :=
  t <- py_get p outer (PyDict []) ;;
  s <- py_get t "symbol" PyNone ;;
  py_strip (py_or s (PyStr "?")).

(** [(p.get("dexId", "unknown") or "unknown").strip()]. *)
Definition dex_id (p : pyobj) : result string :=
  d <- py_get p "dexId" (PyStr "unknown") ;;
  py_strip (py_or d (PyStr "unknown")).

(** *** [handle_volume] *)

(** The liquidity a pair is filtered on: a failed parse counts as 0. *)
Definition filter_liquidity (p : pyobj) : float :=
  match liquidity_usd p with
  | inr liquidity_val => liquidity_val
  | inl _ => fzero
  end.

Definition has_liquidity (p : pyobj) : bool := gt0 (filter_liquidity p).

Definition filter_pairs (pairs : list pyobj) : list pyobj := filter has_liquidity pairs.

(** [sorted(l, key=key, reverse=True)]: the keys are computed first, in list
    order, and a key that raises ends the sort. *)
Definition sorted_by_key {A : Type} (key : A -> result float) (l : list A) : result (list A) :=
  keys <- mapM key l ;;
  ret (map snd (sorted_reverse (combine keys l))).

Definition is_sol_drip_raydium (base quote dex : string) : bool :=
  set2_eqb (upper base) (upper quote) "SOL" "DRIP"
  && String.eqb (lower (strip dex)) "raydium".

Definition volume_line (icon base quote dex liquidity vol24h : string) : string :=
  icon ++ " " ++ base ++ "/" ++ quote ++ " (" ++ dex ++ ") -" ++ nl
  ++ "Liquidity: *" ++ liquidity ++ "* " ++ nl
  ++ "24H Volume: *" ++ vol24h ++ "*" ++ nl ++ nl.

(** The body of [for i, p in enumerate(pairs_sorted)], from index [i] on. *)
Fixpoint volume_loop (show_summary : bool) (i : nat) (ps : list pyobj) (st : loop_state)
  : result loop_state :=
  match ps with
  | [] => ret st
  | p :: rest =>
      base <- token_symbol "baseToken" p ;;
      quote <- token_symbol "quoteToken" p ;;
      dex <- dex_id p ;;
      match liquidity_usd p with
      | inl _ => volume_loop show_summary (S i) rest st
      | inr liquidity_val =>
          let vol24h_val :=
            match volume_h24 p with
            | inr v => v
            | inl _ => fzero
            end in
          let liquidity := format_usd (PyFloat liquidity_val) in
          let vol24h := format_usd (PyFloat vol24h_val) in
          let line := volume_line (icon_for i) base quote dex liquidity vol24h in
          volume_loop show_summary (S i) rest
            {| lines := lines st ++ [line];
               total_volume := (total_volume st + vol24h_val)%float;
               sol_ray_vol :=
                 if show_summary && is_sol_drip_raydium base quote dex
                 then (sol_ray_vol st + vol24h_val)%float
                 else sol_ray_vol st |}
      end
  end.

Definition volume_header (n : nat) : string :=
  "Found " ++ str_of_nat n ++ " active LP pairs" ++ nl.

Definition summary_lines (st : loop_state) : list string :=
  let total_other_vol := (total_volume st - sol_ray_vol st)%float in
  [ "📊 Summary (24H Volume):";
    ("- SOL/DRIP (raydium): *" ++ format_usd (PyFloat (sol_ray_vol st)) ++ "*")%string;
    ("- All others combined: *" ++ format_usd (PyFloat total_other_vol) ++ "*")%string ].

Definition volume_text (show_summary : bool) (st : loop_state) : string :=
  join nl (lines st ++ (if show_summary then summary_lines st else [])).

Definition no_pairs_text : string := "No pairs found in DexScreener response.".
Definition no_liquidity_text : string := "No valid LP pairs with liquidity found.".
Definition no_ratio_text : string := "No valid pairs with ratio data found.".

(** [handle_volume] after the fetch: the text to reply with and whether it
    is sent as Markdown. *)
Definition volume_report (data : pyobj) (show_summary : bool) : result (string * bool) :=
  got <- py_get data "pairs" PyNone ;;
  let pairs := py_or got (PyList []) in
  if negb (truthy pairs) then ret (no_pairs_text, false)
  else
    ps <- py_iter pairs ;;
    let filtered_pairs := filter_pairs ps in
    match filtered_pairs with
    | [] => ret (no_liquidity_text, false)
    | _ =>
        pairs_sorted <- sorted_by_key volume_h24 filtered_pairs ;;
        st <- volume_loop show_summary 0 pairs_sorted
                {| lines := [volume_header (List.length pairs_sorted)];
                   total_volume := fzero; sol_ray_vol := fzero |} ;;
        ret (volume_text show_summary st, true)
    end.

(** A handler that fetched and then ran [report] on the body. *)
Definition run_report (contract_address : string)
    (report : pyobj -> result (string * bool)) : outcome :=
  let fetched := Fetch (fetch_url contract_address) in
  match fetch_token_endpoint contract_address with
  | inl e =>
      {| events := [fetched; Reply ("Error fetching data: " ++ e)%string false];
         raised := None |}
  | inr data =>
      match report data with
      | inl exn => {| events := [fetched]; raised := Some exn |}
      | inr (text, markdown) => {| events := [fetched; Reply text markdown]; raised := None |}
      end
  end.

Definition handle_volume (contract_address : string) (show_summary : bool) : outcome :=
  run_report contract_address (fun data => volume_report data show_summary).

(** *** [handle_ratio] *)

(** An entry of [ratios]: [(ratio, (liquidity_val, vol24h_val, p))], the
    sort key first. *)
Definition ratio_entry : Type := (float * (float * float * pyobj))%type.

(** The loop that fills [ratios]: a pair whose liquidity or volume does not
    parse is skipped, and so is one whose liquidity or volume is not > 0. *)
Fixpoint collect_ratios (pairs : list pyobj) : list ratio_entry :=
  match pairs with
  | [] => []
  | p :: rest =>
      match (l <- liquidity_usd p ;; v <- volume_h24 p ;; ret (l, v)) with
      | inl _ => collect_ratios rest
      | inr (liquidity_val, vol24h_val) =>
          if gt0 liquidity_val && gt0 vol24h_val
          then ((vol24h_val / liquidity_val)%float, (liquidity_val, vol24h_val, p))
               :: collect_ratios rest
          else collect_ratios rest
      end
  end.

Definition ratio_line (icon base quote dex liquidity vol24h ratio_pct : string) : string :=
  icon ++ " " ++ base ++ "/" ++ quote ++ " (" ++ dex ++ ") -" ++ nl
  ++ "Liquidity: *" ++ liquidity ++ "* " ++ nl
  ++ "24H Volume: *" ++ vol24h ++ "* " ++ nl
  ++ "Ratio: *" ++ ratio_pct ++ "*" ++ nl ++ nl.

(** The body of [for i, (ratio, liquidity_val, vol24h_val, p) in
    enumerate(ratios_sorted)], from index [i] on. *)
Fixpoint ratio_loop (i : nat) (rs : list ratio_entry) (acc : list string)
  : result (list string) :=
  match rs with
  | [] => ret acc
  | (ratio, (liquidity_val, vol24h_val, p)) :: rest =>
      base <- token_symbol "baseToken" p ;;
      quote <- token_symbol "quoteToken" p ;;
      dex <- dex_id p ;;
      let liquidity := format_usd (PyFloat liquidity_val) in
      let vol24h := format_usd (PyFloat vol24h_val) in
      let ratio_pct := format_pct (PyFloat ratio) in
      let line := ratio_line (icon_for i) base quote dex liquidity vol24h ratio_pct in
      ratio_loop (S i) rest (acc ++ [line])
  end.

Definition ratio_header (n : nat) : string :=
  "Found " ++ str_of_nat n ++ " LP pairs ranked by ratio (24H Volume ÷ Liquidity)" ++ nl.

(** [handle_ratio] after the fetch. *)
Definition ratio_report (data : pyobj) : result (string * bool) :=
  got <- py_get data "pairs" PyNone ;;
  let pairs := py_or got (PyList []) in
  if negb (truthy pairs) then ret (no_pairs_text, false)
  else
    ps <- py_iter pairs ;;
    let ratios := collect_ratios ps in
    match ratios with
    | [] => ret (no_ratio_text, false)
    | _ =>
        let ratios_sorted := sorted_reverse ratios in
        ls <- ratio_loop 0 ratios_sorted [ratio_header (List.length ratios_sorted)] ;;
        ret (join nl ls, true)
    end.

Definition handle_ratio (contract_address : string) : outcome :=
  run_report contract_address ratio_report.

(** *** Command wrappers *)

Definition home_token : string := "w131jbryFvFEmtqmZvx42Meiuc4Drmu3nodTdVgkREV".

Definition volume : outcome := handle_volume home_token true.

Definition ratio : outcome := handle_ratio home_token.

(** [args] is [context.args], the words after the command. *)
Definition volume_other (args : list string) : outcome :=
  match args with
  | [] => {| events := [Reply "Usage: /volume_other <TOKEN_CA>" false]; raised := None |}
  | contract_address :: _ => handle_volume contract_address false
  end.

Definition ratio_other (args : list string) : outcome :=
  match args with
  | [] => {| events := [Reply "Usage: /ratio_other <TOKEN_CA>" false]; raised := None |}
  | contract_address :: _ => handle_ratio contract_address
  end.

End Handlers.

(** ** A reference runtime

    Python's [float] on a str and its two format specifications, on ASCII
    text, written out so that the handlers run on concrete responses. *)

Module Reference.

Definition is_digit (c : ascii) : bool :=
  let n := nat_of_ascii c in ((48 <=? n) && (n <=? 57))%nat.

Definition digit_val (c : ascii) : Z := Z.of_nat (nat_of_ascii c - 48).

Definition is_underscore (c : ascii) : bool := Ascii.eqb c "_"%char.

(** [digitpart ::= digit (["_"] digit)*]: the digits read (value and count)
    and the rest of the text; [None] when no digit starts the text. *)
Fixpoint digitpart (cs : list ascii) (acc : Z) (n : Z) (started : bool)
  : option (Z * Z * list ascii) :=
  match cs with
  | c :: rest =>
      if is_digit c then digitpart rest (10 * acc + digit_val c) (n + 1) true
      else if is_underscore c && started then
        match rest with
        | d :: _ => if is_digit d then digitpart rest acc n started else Some (acc, n, cs)
        | [] => Some (acc, n, cs)
        end
      else if started then Some (acc, n, cs) else None
  | [] => if started then Some (acc, n, cs) else None
  end.

Definition read_sign (cs : list ascii) : bool * list ascii :=
  match cs with
  | "-"%char :: rest => (true, rest)
  | "+"%char :: rest => (false, rest)
  | _ => (false, cs)
  end.

(** [exponent ::= ("e" | "E") [sign] digitpart], or nothing. *)
Definition read_exponent (cs : list ascii) : option Z :=
  match cs with
  | [] => Some 0%Z
  | c :: rest =>
      if Ascii.eqb c "e"%char || Ascii.eqb c "E"%char then
        let '(neg, rest') := read_sign rest in
        match digitpart rest' 0 0 false with
        | Some (e, _, []) => Some (if neg then (- e)%Z else e)
        | _ => None
        end
      else None
  end.

(** The decimal [m * 10^e] with a sign, rounded to the nearest double. *)
Definition float_of_decimal (neg : bool) (m e : Z) : float :=
  match m with
  | Z.pos p =>
      let sf :=
        if (0 <=? e)%Z then binary_normalize prec emax (m * 10 ^ e) 0 false
        else SFdiv prec emax (S754_finite false p 0)
               (S754_finite false (Z.to_pos (10 ^ (- e))) 0) in
      let f := SF2Prim sf in if neg then (- f)%float else f
  | _ => if neg then neg_zero else PrimFloat.zero
  end.

(** [floatnumber ::= ([digitpart] "." digitpart | digitpart ["."]) [exponent]]. *)
Definition read_number (neg : bool) (cs : list ascii) : option float :=
  match digitpart cs 0 0 false with
  | Some (ip, _, "."%char :: rest) =>
      let '(m, nfrac, rest') :=
        match digitpart rest ip 0 false with
        | Some r => r
        | None => (ip, 0%Z, rest)
        end in
      match read_exponent rest' with
      | Some e => Some (float_of_decimal neg m (e - nfrac))
      | None => None
      end
  | Some (ip, _, rest) =>
      match read_exponent rest with
      | Some e => Some (float_of_decimal neg ip e)
      | None => None
      end
  | None =>
      match cs with
      | "."%char :: rest =>
          match digitpart rest 0 0 false with
          | Some (m, nfrac, rest') =>
              match read_exponent rest' with
              | Some e => Some (float_of_decimal neg m (e - nfrac))
              | None => None
              end
          | None => None
          end
      | _ => None
      end
  end.

(** The whitespace [float] skips at both ends of ASCII text: tab to
    carriage return, and the space (not the separators 28 to 31). *)
Definition is_float_space (c : ascii) : bool :=
  let n := nat_of_ascii c in
  ((9 <=? n) && (n <=? 13) || (n =? 32))%nat.

(** [float(s)] for ASCII text. *)
Definition float_of_string (s : string) : option float :=
  let '(neg, cs) := read_sign (list_ascii_of_string (strip_by is_float_space s)) in
  let word := ascii_lower (string_of_list_ascii cs) in
  if String.eqb word "inf" || String.eqb word "infinity"
  then Some (if neg then neg_infinity else infinity)
  else if String.eqb word "nan" then Some nan
  else read_number neg cs.

(** The digits of [n] with a comma before every group of three. *)
Fixpoint group3 (fuel : nat) (n : Z) : string :=
  match fuel with
  | O => ""
  | S fuel' =>
      if (n <? 1000)%Z then str_of_nat (Z.to_nat n)
      else
        let r := (n mod 1000)%Z in
        let pad := if (r <? 10)%Z then "00" else if (r <? 100)%Z then "0" else "" in
        (group3 fuel' (n / 1000) ++ "," ++ pad ++ str_of_nat (Z.to_nat r))%string
  end.

(** [|x| * 100] rounded to an integer, ties to even, for a finite nonzero
    [x = m * 2^e]. *)
Definition cents (m : positive) (e : Z) : Z :=
  if (0 <=? e)%Z then Z.pos m * 100 * 2 ^ e
  else
    let d := (2 ^ (- e))%Z in
    let q := (Z.pos m * 100 / d)%Z in
    let r := (Z.pos m * 100 mod d)%Z in
    match (2 * r ?= d)%Z with
    | Lt => q
    | Gt => (q + 1)%Z
    | Eq => if Z.even q then q else (q + 1)%Z
    end.

Definition fixed2 (grouped : bool) (c : Z) : string :=
  let ip := (c / 100)%Z in
  let fp := (c mod 100)%Z in
  ((if grouped then group3 (S (Z.to_nat (Z.log2 (ip + 1)))) ip else str_of_nat (Z.to_nat ip))
   ++ "." ++ (if (fp <? 10)%Z then "0" else "") ++ str_of_nat (Z.to_nat fp))%string.

(** [format(x, ".2f")], with the thousands separator when [grouped]. *)
Definition format_2f (grouped : bool) (x : float) : string :=
  match Prim2SF x with
  | S754_nan => "nan"
  | S754_infinity s => if s then "-inf" else "inf"
  | S754_zero s => if s then "-0.00" else "0.00"
  | S754_finite s m e => ((if s then "-" else "") ++ fixed2 grouped (cents m e))%string
  end.

Definition format_grouped (x : float) : string := format_2f true x.

(** [format(x, ".2%")]: the value times 100, as a double, then [".2f"]. *)
Definition format_percent (x : float) : string :=
  (format_2f false (x * 100)%float ++ "%")%string.

End Reference.

(** * Properties *)

(** ** The order on floats

    The comparisons of primitive floats are those of [SpecFloat], through
    the kernel's specification of them. *)

Module FloatOrder.

Lemma is_nan_spec (x : float) : PrimFloat.is_nan x = false <-> Prim2SF x <> S754_nan.
Proof.
  unfold PrimFloat.is_nan. rewrite FloatAxioms.eqb_spec. unfold SFeqb.
  destruct (Prim2SF x) as [s| s| |s m e]; simpl.
  - split; [discriminate | reflexivity].
  - split; [discriminate | destruct s; reflexivity].
  - split; [discriminate | intros H; now elim H].
  - rewrite Z.compare_refl, Pos.compare_cont_refl.
    split; [discriminate | destruct s; reflexivity].
Qed.

(** [SFcompare] is defined on every pair without a NaN. *)
Lemma SFcompare_defined (a b : spec_float) :
  a <> S754_nan -> b <> S754_nan -> exists c, SFcompare a b = Some c.
Proof.
  destruct a, b; simpl; intros Ha Hb; try (now elim Ha); try (now elim Hb); eauto.
Qed.

Lemma SFcompare_swap (a b : spec_float) :
  SFcompare b a = option_map CompOpp (SFcompare a b).
Proof.
  destruct a as [s1| s1| |s1 m1 e1], b as [s2| s2| |s2 m2 e2]; simpl;
    try reflexivity; try (destruct s1; reflexivity); try (destruct s2; reflexivity);
    try (destruct s1, s2; reflexivity).
  rewrite (Z.compare_antisym e1 e2).
  change (Pos.compare_cont Eq m2 m1) with (Pos.compare m2 m1).
  change (Pos.compare_cont Eq m1 m2) with (Pos.compare m1 m2).
  rewrite (Pos.compare_antisym m1 m2).
  destruct s1, s2; simpl; try reflexivity;
    destruct (e1 ?= e2)%Z; simpl; try reflexivity;
    destruct (m1 ?= m2)%positive; reflexivity.
Qed.

Ltac to_spec :=
  repeat match goal with
    | H : context [PrimFloat.ltb _ _] |- _ => rewrite FloatAxioms.ltb_spec in H
    | H : context [PrimFloat.leb _ _] |- _ => rewrite FloatAxioms.leb_spec in H
    | H : context [PrimFloat.eqb _ _] |- _ => rewrite FloatAxioms.eqb_spec in H
    | H : PrimFloat.is_nan _ = false |- _ => apply is_nan_spec in H
    | |- context [PrimFloat.ltb _ _] => rewrite FloatAxioms.ltb_spec
    | |- context [PrimFloat.leb _ _] => rewrite FloatAxioms.leb_spec
    | |- context [PrimFloat.eqb _ _] => rewrite FloatAxioms.eqb_spec
    end;
  unfold SFltb, SFleb, SFeqb in *.

(** [x < y] fails on two numbers only when [y <= x]. *)
Lemma ltb_false_leb (x y : float) :
  PrimFloat.is_nan x = false -> PrimFloat.is_nan y = false ->
  PrimFloat.ltb x y = false -> PrimFloat.leb y x = true.
Proof.
  intros Hx Hy H. to_spec.
  rewrite SFcompare_swap.
  destruct (SFcompare_defined _ _ Hx Hy) as [c Hc]. rewrite Hc in *.
  destruct c; simpl; congruence.
Qed.

Lemma ltb_leb (x y : float) : PrimFloat.ltb x y = true -> PrimFloat.leb x y = true.
Proof.
  intros H. to_spec. destruct (SFcompare _ _) as [[ | | ]|]; congruence.
Qed.

Lemma leb_not_nan (x y : float) :
  PrimFloat.leb x y = true -> PrimFloat.is_nan x = false /\ PrimFloat.is_nan y = false.
Proof.
  intros H. rewrite !is_nan_spec. to_spec.
  destruct (Prim2SF x), (Prim2SF y); simpl in H; split; congruence.
Qed.

Ltac cmp_cases :=
  change (Pos.compare_cont Eq) with Pos.compare in *;
  repeat match goal with
    | H : context [(?a ?= ?b)%Z] |- _ => destruct (Z.compare_spec a b); simpl in H
    | |- context [(?a ?= ?b)%Z] => destruct (Z.compare_spec a b); simpl
    | H : context [(?a ?= ?b)%positive] |- _ => destruct (Pos.compare_spec a b); simpl in H
    | |- context [(?a ?= ?b)%positive] => destruct (Pos.compare_spec a b); simpl
    end;
  try congruence; try lia.

Lemma SFleb_trans (a b c : spec_float) :
  SFleb a b = true -> SFleb b c = true -> SFleb a c = true.
Proof.
  unfold SFleb.
  destruct a as [s1| s1| |s1 m1 e1], b as [s2| s2| |s2 m2 e2], c as [s3| s3| |s3 m3 e3];
    simpl; try congruence;
    try destruct s1; try destruct s2; try destruct s3; simpl; try congruence;
    intros H1 H2; cmp_cases.
Qed.

Lemma leb_trans (x y z : float) :
  PrimFloat.leb x y = true -> PrimFloat.leb y z = true -> PrimFloat.leb x z = true.
Proof.
  rewrite !FloatAxioms.leb_spec. apply SFleb_trans.
Qed.

(** A key equal to [v] is not below another key equal to [v]. *)
Lemma eqb_ltb_eqb (v x y : float) :
  PrimFloat.eqb x v = true -> PrimFloat.ltb x y = true -> PrimFloat.eqb y v = false.
Proof.
  intros H1 H2. to_spec.
  destruct (Prim2SF x) as [s1| s1| |s1 m1 e1], (Prim2SF y) as [s2| s2| |s2 m2 e2],
    (Prim2SF v) as [s3| s3| |s3 m3 e3];
    simpl in *; try congruence;
    try destruct s1; try destruct s2; try destruct s3; simpl in *; try congruence;
    cmp_cases.
Qed.

End FloatOrder.

(** ** Sums of nonnegative floats

    Addition of doubles rounds to nearest, ties to even.  Measured in units
    of 2^-1074 every finite double is an integer, and on those integers the
    rounding is the function [rndZ]; it is monotone, which is what orders
    two running sums of nonnegative numbers. *)

Module Binary64.

Local Open Scope Z_scope.

(** Round to nearest, ties to even, on the integers: 53 significant bits. *)
Definition shift_of (N : Z) : Z := Z.max 0 (Z.log2 N + 1 - 53).

Definition round_up (q r w : Z) : bool :=
  match 2 * r ?= w with
  | Lt => false
  | Gt => true
  | Eq => Z.odd q
  end.

Definition rndZ (N : Z) : Z :=
  let k := shift_of N in
  let q := N / 2 ^ k in
  let r := N mod 2 ^ k in
  (if round_up q r (2 ^ k) then q + 1 else q) * 2 ^ k.

Lemma shift_of_nonneg N : 0 <= shift_of N.
Proof. unfold shift_of. lia. Qed.

Lemma shift_of_mono N1 N2 : N1 <= N2 -> shift_of N1 <= shift_of N2.
Proof.
  intros H. unfold shift_of. pose proof (Z.log2_le_mono N1 N2 H). lia.
Qed.

Lemma quot_bounds N : 0 < N -> 0 < shift_of N ->
  2 ^ 52 <= N / 2 ^ shift_of N < 2 ^ 53.
Proof.
  intros HN Hk. unfold shift_of in *.
  assert (Hl : Z.log2 N = shift_of N + 52) by (unfold shift_of; lia).
  unfold shift_of in Hl.
  set (k := Z.max 0 (Z.log2 N + 1 - 53)) in *.
  destruct (Z.log2_spec N HN) as [H1 H2].
  rewrite Hl in H1. replace (Z.succ (Z.log2 N)) with (k + 53) in H2 by lia.
  rewrite Z.pow_add_r in H1, H2 by lia.
  assert (0 < 2 ^ k) by (apply Z.pow_pos_nonneg; lia).
  split.
  - apply Z.div_le_lower_bound; lia.
  - apply Z.div_lt_upper_bound; lia.
Qed.

Lemma quot_small N : 0 <= N -> shift_of N = 0 -> N < 2 ^ 53.
Proof.
  intros HN Hk. unfold shift_of in Hk.
  destruct (Z.eq_dec N 0) as [->|Hn]; [reflexivity|].
  assert (Z.log2 N < 53) by lia.
  apply Z.log2_lt_pow2; lia.
Qed.

Lemma rndZ_bounds N : 0 <= N ->
  let k := shift_of N in
  (N / 2 ^ k) * 2 ^ k <= rndZ N <= (N / 2 ^ k + 1) * 2 ^ k.
Proof.
  intros HN k. unfold rndZ. fold k.
  assert (0 < 2 ^ k) by (apply Z.pow_pos_nonneg; [lia | apply shift_of_nonneg]).
  destruct (round_up _ _ _); nia.
Qed.

Lemma round_up_mono q r1 r2 w : r1 <= r2 -> round_up q r1 w = true -> round_up q r2 w = true.
Proof.
  unfold round_up. intros H.
  destruct (Z.compare_spec (2 * r1) w), (Z.compare_spec (2 * r2) w); try congruence; lia.
Qed.

Lemma rndZ_mono N1 N2 : 0 <= N1 -> N1 <= N2 -> rndZ N1 <= rndZ N2.
Proof.
  intros H0 H.
  pose proof (shift_of_mono _ _ H) as Hk.
  pose proof (shift_of_nonneg N1) as Hk1.
  pose proof (rndZ_bounds N1 H0) as B1. pose proof (rndZ_bounds N2 ltac:(lia)) as B2.
  cbv zeta in B1, B2.
  assert (P1 : 0 < 2 ^ shift_of N1) by (apply Z.pow_pos_nonneg; lia).
  assert (P2 : 0 < 2 ^ shift_of N2) by (apply Z.pow_pos_nonneg; lia).
  destruct (Z.eq_dec (shift_of N1) (shift_of N2)) as [E|E].
  - (* same binade *)
    unfold rndZ in *. rewrite <- E in *. set (k := shift_of N1) in *.
    set (w := 2 ^ k) in *.
    assert (Hq : N1 / w <= N2 / w) by (apply Z.div_le_mono; lia).
    destruct (Z.eq_dec (N1 / w) (N2 / w)) as [Eq|Nq].
    + rewrite <- Eq in *.
      assert (Hr : N1 mod w <= N2 mod w).
      { pose proof (Z.div_mod N1 w ltac:(lia)). pose proof (Z.div_mod N2 w ltac:(lia)). nia. }
      destruct (round_up (N1 / w) (N1 mod w) w) eqn:U1.
      * now rewrite (round_up_mono _ _ _ _ Hr U1).
      * destruct (round_up (N1 / w) (N2 mod w) w); nia.
    + nia.
  - (* a higher binade *)
    assert (Hlt : shift_of N1 < shift_of N2) by lia.
    assert (HN2 : 0 < N2).
    { destruct (Z.eq_dec N2 0) as [->|]; [|lia]. unfold shift_of in Hlt. simpl in Hlt. lia. }
    pose proof (quot_bounds N2 HN2 ltac:(lia)) as Q2.
    assert (Q1 : N1 / 2 ^ shift_of N1 < 2 ^ 53).
    { destruct (Z.eq_dec (shift_of N1) 0) as [Z0|NZ0].
      - rewrite Z0. rewrite Z.pow_0_r, Z.div_1_r. now apply quot_small.
      - destruct (Z.eq_dec N1 0) as [->|]; [reflexivity|].
        apply quot_bounds; lia. }
    assert (Hp : 2 ^ 53 * 2 ^ shift_of N1 <= 2 ^ 52 * 2 ^ shift_of N2).
    { replace (shift_of N2) with (shift_of N1 + 1 + (shift_of N2 - shift_of N1 - 1)) by lia.
      rewrite !Z.pow_add_r by lia.
      assert (0 < 2 ^ (shift_of N2 - shift_of N1 - 1)) by (apply Z.pow_pos_nonneg; lia).
      change (2 ^ 53) with (2 ^ 52 * 2). change (2 ^ 1) with 2. nia. }
    nia.
Qed.

Lemma rndZ_exact m j : 0 <= m < 2 ^ 53 -> 0 <= j -> rndZ (m * 2 ^ j) = m * 2 ^ j.
Proof.
  intros Hm Hj. unfold rndZ.
  set (N := m * 2 ^ j). set (k := shift_of N).
  assert (Hk : 0 <= k <= j).
  { split; [apply shift_of_nonneg|]. unfold k, shift_of.
    destruct (Z.eq_dec m 0) as [->|Hm0]; [unfold N; simpl; lia|].
    assert (Z.log2 N = Z.log2 m + j).
    { unfold N. rewrite Z.log2_mul_pow2; lia. }
    assert (Z.log2 m < 53) by (apply Z.log2_lt_pow2; lia). lia. }
  assert (HN : N = (m * 2 ^ (j - k)) * 2 ^ k).
  { unfold N. rewrite <- Z.mul_assoc, <- Z.pow_add_r by lia. do 2 f_equal. lia. }
  assert (0 < 2 ^ k) by (apply Z.pow_pos_nonneg; lia).
  assert (Hr : N mod 2 ^ k = 0) by (rewrite HN; apply Z.mod_mul; lia).
  assert (Hq : N / 2 ^ k = m * 2 ^ (j - k)) by (rewrite HN; apply Z.div_mul; lia).
  rewrite Hr, Hq. unfold round_up. simpl (2 * 0).
  destruct (Z.compare_spec 0 (2 ^ k)); try lia.
Qed.

(** ** Binary64 as integers, in units of 2^-1074 *)

Definition top : Z := 2 ^ 2098.

Lemma top_pos : 0 < top.
Proof. reflexivity. Qed.

Definition value (x : spec_float) : Z :=
  match x with
  | S754_zero _ => 0
  | S754_finite _ m e => Z.pos m * 2 ^ (e + 1074)
  | S754_infinity _ => top
  | S754_nan => 0
  end.

(** Zero, a positive number or plus infinity. *)
Definition nonneg (x : spec_float) : bool :=
  match x with
  | S754_zero _ => true
  | S754_finite s _ _ => negb s
  | S754_infinity s => negb s
  | S754_nan => false
  end.

Definition valid (x : spec_float) : bool := valid_binary x.

Lemma digits2_log2 (m : positive) : Z.pos (digits2_pos m) = Z.log2 (Z.pos m) + 1.
Proof.
  induction m as [m IH|m IH|]; simpl; try reflexivity;
    rewrite Pos2Z.inj_succ, IH; unfold Z.log2; destruct m; simpl; lia.
Qed.

Lemma nonneg_leb (x : spec_float) : nonneg x = SFleb (S754_zero false) x.
Proof. destruct x as [s|s| |s m e]; try destruct s; reflexivity. Qed.

Lemma fexp64 (e : Z) : fexp prec emax e = Z.max (e - 53) (-1074).
Proof. reflexivity. Qed.

(** A valid finite number: exponent range, and a full mantissa above the
    smallest exponent. *)
Lemma valid_finite (s : bool) (m : positive) (e : Z) :
  valid (S754_finite s m e) = true ->
  -1074 <= e <= 971 /\ Z.pos m < 2 ^ 53 /\ (-1074 < e -> 2 ^ 52 <= Z.pos m).
Proof.
  unfold valid, SpecFloat.valid_binary, bounded, canonical_mantissa.
  rewrite andb_true_iff, Z.eqb_eq, Z.leb_le, fexp64, digits2_log2.
  change (emax - prec) with 971. intros [Hc He].
  pose proof (Z.log2_spec (Z.pos m) ltac:(lia)) as [L1 L2].
  assert (Z.log2 (Z.pos m) <= 52) by lia.
  split; [lia|]. split.
  - eapply Z.lt_le_trans; [exact L2|]. apply Z.pow_le_mono_r; lia.
  - intros Hlt. assert (Z.log2 (Z.pos m) = 52) by lia.
    replace 52 with (Z.log2 (Z.pos m)) by assumption. exact L1.
Qed.

Lemma value_finite_bounds (s : bool) (m : positive) (e : Z) :
  valid (S754_finite s m e) = true ->
  0 < value (S754_finite s m e) < top.
Proof.
  intros H. apply valid_finite in H. destruct H as [He [Hm _]]. cbn [value].
  assert (0 < 2 ^ (e + 1074)) by (apply Z.pow_pos_nonneg; lia).
  split; [apply Z.mul_pos_pos; lia|]. unfold top.
  change (2 ^ 2098) with (2 ^ 53 * 2 ^ 2045).
  assert (Hp : 2 ^ (e + 1074) <= 2 ^ 2045) by (apply Z.pow_le_mono_r; lia).
  assert (Hq : 0 < 2 ^ 2045) by (apply Z.pow_pos_nonneg; lia).
  revert Hp Hq Hm H. generalize (2 ^ (e + 1074)) (2 ^ 2045) (2 ^ 53). intros a b c Hp Hq Hm H.
  apply Z.le_lt_trans with (Z.pos m * b).
  - apply Z.mul_le_mono_nonneg_l; lia.
  - apply Z.mul_lt_mono_pos_r; lia.
Qed.

Lemma binade_lt (m1 m2 a c : Z) :
  0 < a -> 0 < c -> 0 <= m1 < 2 ^ 53 -> 2 ^ 52 <= m2 -> m1 * a < m2 * (a * 2 * c).
Proof.
  intros Ha Hc H1 H2.
  apply Z.lt_le_trans with (2 ^ 53 * a).
  - apply Z.mul_lt_mono_pos_r; lia.
  - replace (m2 * (a * 2 * c)) with ((m2 * 2 * c) * a) by ring.
    apply Z.mul_le_mono_nonneg_r; [lia|].
    change (2 ^ 53) with (2 ^ 52 * 2).
    apply Z.le_trans with (m2 * 2); [lia|].
    rewrite <- (Z.mul_1_r (m2 * 2)) at 1.
    apply Z.mul_le_mono_nonneg_l; lia.
Qed.

(** On valid numbers the exponent-then-mantissa comparison is the
    comparison of values. *)
Lemma finite_compare (m1 m2 : positive) (e1 e2 : Z) :
  valid (S754_finite false m1 e1) = true -> valid (S754_finite false m2 e2) = true ->
  match (e1 ?= e2) with
  | Eq => (m1 ?= m2)%positive
  | c => c
  end = (Z.pos m1 * 2 ^ (e1 + 1074) ?= Z.pos m2 * 2 ^ (e2 + 1074)).
Proof.
  intros V1 V2. apply valid_finite in V1, V2.
  destruct V1 as [E1 [M1 F1]], V2 as [E2 [M2 F2]].
  assert (P : forall a b, -1074 <= a -> a < b ->
                2 ^ (b + 1074) = 2 ^ (a + 1074) * 2 * 2 ^ (b - a - 1)).
  { intros a b Ha Hab. rewrite <- Z.mul_assoc, <- (Z.pow_succ_r 2), <- Z.pow_add_r by lia.
    f_equal. lia. }
  destruct (Z.compare_spec e1 e2) as [->|Hlt|Hgt].
  - change (m1 ?= m2)%positive with (Z.pos m1 ?= Z.pos m2).
    apply Zmult_compare_compat_r. apply Z.lt_gt, Z.pow_pos_nonneg; lia.
  - symmetry. apply Z.compare_lt_iff.
    rewrite (P e1 e2) by lia.
    apply binade_lt; try (apply Z.pow_pos_nonneg; lia); try lia; try (apply F2; lia).
  - symmetry. apply Z.compare_gt_iff.
    rewrite (P e2 e1) by lia.
    apply binade_lt; try (apply Z.pow_pos_nonneg; lia); try lia; try (apply F1; lia).
Qed.

Lemma value_leb (x y : spec_float) :
  valid x = true -> valid y = true -> nonneg x = true -> nonneg y = true ->
  SFleb x y = (value x <=? value y).
Proof.
  intros Vx Vy Nx Ny.
  destruct x as [sx|sx| |sx mx ex], y as [sy|sy| |sy my ey]; simpl in Nx, Ny;
    try discriminate; try (destruct sx; try discriminate); try (destruct sy; try discriminate);
    unfold SFleb; cbn [SFcompare value];
    try reflexivity;
    try (pose proof (value_finite_bounds _ _ _ Vx)); try (pose proof (value_finite_bounds _ _ _ Vy));
    cbn [value] in *;
    try (symmetry; apply Z.leb_le; lia);
    try (symmetry; apply Z.leb_gt; lia).
  change (Pos.compare_cont Eq mx my) with (mx ?= my)%positive.
  rewrite (finite_compare mx my ex ey Vx Vy). unfold Z.leb.
  now destruct (Z.pos mx * 2 ^ (ex + 1074) ?= Z.pos my * 2 ^ (ey + 1074)).
Qed.

(** ** The shift-and-round of [SpecFloat] *)

Lemma iter_pos_nat {A : Type} (f : A -> A) (p : positive) (x : A) :
  SpecFloat.iter_pos f p x = Nat.iter (Pos.to_nat p) f x.
Proof.
  revert x. induction p as [p IH|p IH|]; intros x; cbn [SpecFloat.iter_pos].
  - rewrite !IH, Pos2Nat.inj_xI.
    replace (S (2 * Pos.to_nat p)) with (Pos.to_nat p + (Pos.to_nat p + 1))%nat by lia.
    rewrite !Nat.iter_add. reflexivity.
  - rewrite !IH, Pos2Nat.inj_xO.
    replace (2 * Pos.to_nat p)%nat with (Pos.to_nat p + Pos.to_nat p)%nat by lia.
    now rewrite Nat.iter_add.
  - reflexivity.
Qed.

(** The record after [j] right shifts of [M]: the quotient, the last bit
    shifted out and whether any earlier bit was set. *)
Definition shifted (M : Z) (j : nat) : shr_record :=
  match j with
  | O => Build_shr_record M false false
  | S i =>
      Build_shr_record (M / 2 ^ Z.of_nat j)
        (Z.odd (M / 2 ^ Z.of_nat i))
        (negb (M mod 2 ^ Z.of_nat i =? 0))
  end.

Lemma shr_1_nonneg (m : Z) (r s : bool) : 0 <= m ->
  shr_1 (Build_shr_record m r s) = Build_shr_record (m / 2) (Z.odd m) (r || s).
Proof.
  intros H. unfold shr_1.
  destruct m as [|p|p]; [reflexivity| |lia].
  destruct p as [p|p|]; try reflexivity.
  - rewrite Pos2Z.inj_xI. f_equal.
    rewrite Z.add_comm, Z.mul_comm, Z.div_add by lia. reflexivity.
  - rewrite Pos2Z.inj_xO. f_equal. rewrite Z.mul_comm, Z.div_mul by lia. reflexivity.
Qed.

Lemma mod_pow2_succ (M i : Z) : 0 <= i ->
  M mod 2 ^ (i + 1) = M mod 2 ^ i + 2 ^ i * ((M / 2 ^ i) mod 2).
Proof.
  intros Hi. rewrite Z.pow_add_r by lia. change (2 ^ 1) with 2.
  apply Z.rem_mul_r; [apply Z.pow_nonzero; lia | lia].
Qed.

Lemma shifted_succ (M : Z) (j : nat) : 0 <= M -> shr_1 (shifted M j) = shifted M (S j).
Proof.
  intros HM. destruct j as [|i].
  - unfold shifted. rewrite shr_1_nonneg by lia.
    change (Z.of_nat 1) with 1. change (Z.of_nat 0) with 0.
    rewrite Z.pow_1_r, Z.pow_0_r, Z.div_1_r, Z.mod_1_r. reflexivity.
  - unfold shifted. set (a := Z.of_nat i).
    replace (Z.of_nat (S i)) with (a + 1) by lia.
    replace (Z.of_nat (S (S i))) with (a + 1 + 1) by lia.
    assert (Ha : 0 <= a) by lia.
    assert (0 < 2 ^ a) by (apply Z.pow_pos_nonneg; lia).
    assert (0 < 2 ^ (a + 1)) by (apply Z.pow_pos_nonneg; lia).
    rewrite shr_1_nonneg by (apply Z.div_pos; lia).
    f_equal.
    + rewrite (Z.pow_add_r 2 (a + 1) 1) by lia. change (2 ^ 1) with 2.
      rewrite Z.div_div by lia. reflexivity.
    + rewrite (mod_pow2_succ M a Ha).
      rewrite Zmod_odd.
      pose proof (Z.mod_pos_bound M (2 ^ a) ltac:(lia)).
      destruct (Z.odd (M / 2 ^ a)); simpl.
      * symmetry. apply negb_true_iff, Z.eqb_neq. lia.
      * rewrite Z.mul_0_r, Z.add_0_r. reflexivity.
Qed.

Lemma iter_shifted (M : Z) (n : nat) : 0 <= M ->
  Nat.iter n shr_1 (shifted M 0) = shifted M n.
Proof.
  intros HM. induction n as [|n IH]; [reflexivity|].
  rewrite Nat.iter_succ, IH. now apply shifted_succ.
Qed.

(** Rounding the record of a shift by [n > 0] rounds the quotient by the
    remainder. *)
Lemma round_shifted (M : Z) (n : nat) : 0 <= M ->
  shr_m (shifted M n) = M / 2 ^ Z.of_nat n
  /\ round_nearest_even (shr_m (shifted M n)) (loc_of_shr_record (shifted M n)) =
     if round_up (M / 2 ^ Z.of_nat n) (M mod 2 ^ Z.of_nat n) (2 ^ Z.of_nat n)
     then M / 2 ^ Z.of_nat n + 1 else M / 2 ^ Z.of_nat n.
Proof.
  intros HM. destruct n as [|i].
  - simpl. rewrite Z.div_1_r. split; [reflexivity|]. rewrite Z.mod_1_r. reflexivity.
  - split; [reflexivity|]. unfold shifted.
    set (a := Z.of_nat i). replace (Z.of_nat (S i)) with (a + 1) by lia.
    assert (Ha : 0 <= a) by lia.
    assert (Hp : 0 < 2 ^ a) by (apply Z.pow_pos_nonneg; lia).
    set (q := M / 2 ^ (a + 1)).
    rewrite (mod_pow2_succ M a Ha), Zmod_odd.
    pose proof (Z.mod_pos_bound M (2 ^ a) ltac:(lia)) as Hr.
    rewrite (Z.pow_add_r 2 a 1) by lia. change (2 ^ 1) with 2.
    unfold round_up, loc_of_shr_record, round_nearest_even. cbn [shr_m shr_r shr_s].
    destruct (Z.odd (M / 2 ^ a)).
    + rewrite Z.mul_1_r.
      destruct (Z.eqb_spec (M mod 2 ^ a) 0) as [E|E]; simpl negb; cbv iota.
      * rewrite E, Z.add_0_l.
        replace (2 * 2 ^ a ?= 2 ^ a * 2) with Eq by (symmetry; apply Z.compare_eq_iff; lia).
        rewrite <- Z.negb_odd. now destruct (Z.odd q).
      * replace (2 * (M mod 2 ^ a + 2 ^ a) ?= 2 ^ a * 2) with Gt
          by (symmetry; apply Z.compare_gt_iff; lia).
        reflexivity.
    + rewrite Z.mul_0_r, Z.add_0_r.
      replace (2 * (M mod 2 ^ a) ?= 2 ^ a * 2) with Lt
        by (symmetry; apply Z.compare_lt_iff; lia).
      now destruct (negb (M mod 2 ^ a =? 0)).
Qed.

(** [shr] by any [n >= 0]. *)
Lemma shr_spec (M e n : Z) : 0 <= M -> 0 <= n ->
  let '(mrs, e') := shr (Build_shr_record M false false) e n in
  e' = e + n /\ shr_m mrs = M / 2 ^ n
  /\ round_nearest_even (shr_m mrs) (loc_of_shr_record mrs) =
     if round_up (M / 2 ^ n) (M mod 2 ^ n) (2 ^ n) then M / 2 ^ n + 1 else M / 2 ^ n.
Proof.
  intros HM Hn. destruct n as [|p|p]; [| |lia].
  - simpl. rewrite Z.div_1_r, Z.mod_1_r. repeat split; lia.
  - unfold shr. rewrite iter_pos_nat.
    change (Build_shr_record M false false) with (shifted M 0).
    rewrite (iter_shifted M _ HM).
    destruct (round_shifted M (Pos.to_nat p) HM) as [H1 H2].
    rewrite positive_nat_Z in H1, H2. repeat split; assumption.
Qed.

Lemma top_le (m E : Z) : 2 ^ 52 <= m -> 972 <= E -> top <= m * 2 ^ (E + 1074).
Proof.
  intros Hm HE. unfold top. change (2 ^ 2098) with (2 ^ 52 * 2 ^ 2046).
  assert (2 ^ 2046 <= 2 ^ (E + 1074)) by (apply Z.pow_le_mono_r; lia).
  assert (0 < 2 ^ 2046) by (apply Z.pow_pos_nonneg; lia).
  apply Z.mul_le_mono_nonneg; lia.
Qed.

Lemma lt_top (m E : Z) : 0 <= m < 2 ^ 53 -> -1074 <= E <= 971 -> m * 2 ^ (E + 1074) < top.
Proof.
  intros Hm HE. unfold top. change (2 ^ 2098) with (2 ^ 53 * 2 ^ 2045).
  assert (Hp : 2 ^ (E + 1074) <= 2 ^ 2045) by (apply Z.pow_le_mono_r; lia).
  assert (Hq : 0 < 2 ^ 2045) by (apply Z.pow_pos_nonneg; lia).
  assert (Hr : 0 < 2 ^ (E + 1074)) by (apply Z.pow_pos_nonneg; lia).
  revert Hp Hq Hr Hm. generalize (2 ^ (E + 1074)) (2 ^ 2045) (2 ^ 53). intros a b c Hp Hq Hr Hm.
  apply Z.le_lt_trans with (m * b).
  - apply Z.mul_le_mono_nonneg_l; lia.
  - apply Z.mul_lt_mono_pos_r; lia.
Qed.

Lemma Zdigits2_log2 (m : Z) : 0 < m -> Zdigits2 m = Z.log2 m + 1.
Proof.
  destruct m as [|p|p]; try lia. intros _. apply digits2_log2.
Qed.

Lemma shr_none (mrs : shr_record) (e n : Z) : n <= 0 -> shr mrs e n = (mrs, e).
Proof.
  intros H. destruct n; try reflexivity. lia.
Qed.

(** The encoding that ends [binary_round_aux], and its value. *)
Definition encode (m e : Z) : spec_float :=
  match m with
  | Z0 => S754_zero false
  | Zpos p => if e <=? emax - prec then S754_finite false p e else S754_infinity false
  | Zneg _ => S754_nan
  end.

Lemma encode_value (m E : Z) :
  0 <= m < 2 ^ 53 -> -1074 <= E -> (-1074 < E -> 2 ^ 52 <= m) ->
  nonneg (encode m E) = true /\ value (encode m E) = Z.min top (m * 2 ^ (E + 1074)).
Proof.
  intros Hm HE Hn. unfold encode. change (emax - prec) with 971.
  destruct m as [|p|p]; [| |lia].
  - split; [reflexivity|]. cbn [value]. pose proof top_pos. lia.
  - destruct (Z.leb_spec E 971) as [Hle|Hgt]; (split; [reflexivity|]); cbn [value].
    + pose proof (lt_top (Z.pos p) E Hm ltac:(lia)). lia.
    + pose proof (top_le (Z.pos p) E ltac:(apply Hn; lia) ltac:(lia)). lia.
Qed.

(** The second shift of [binary_round_aux]: it only undoes a carry. *)
Lemma stage2 (m2 E : Z) :
  0 <= m2 <= 2 ^ 53 -> -1074 <= E -> (-1074 < E -> 2 ^ 52 <= m2) ->
  let '(mrs, e'') := shr_fexp prec emax m2 E loc_Exact in
  nonneg (encode (shr_m mrs) e'') = true
  /\ value (encode (shr_m mrs) e'') = Z.min top (m2 * 2 ^ (E + 1074)).
Proof.
  intros Hm HE Hn. unfold shr_fexp. cbn [shr_record_of_loc]. rewrite fexp64.
  destruct (Z.eq_dec m2 (2 ^ 53)) as [->|Hne].
  - (* the carry: 2^53 becomes 2^52 one exponent up *)
    change (Zdigits2 (2 ^ 53)) with 54.
    replace (Z.max (54 + E - 53) (-1074) - E) with 1 by lia.
    pose proof (shr_spec (2 ^ 53) E 1 ltac:(lia) ltac:(lia)) as S.
    destruct (shr {| shr_m := 2 ^ 53; shr_r := false; shr_s := false |} E 1) as [mrs e''].
    destruct S as [-> [-> _]]. change (2 ^ 53 / 2 ^ 1) with (2 ^ 52).
    destruct (encode_value (2 ^ 52) (E + 1) ltac:(lia) ltac:(lia) ltac:(lia)) as [H1 H2].
    split; [exact H1|]. rewrite H2. f_equal.
    replace (E + 1 + 1074) with (E + 1074 + 1) by lia.
    rewrite Z.pow_add_r by lia. change (2 ^ 53) with (2 ^ 52 * 2 ^ 1). ring.
  - assert (Hs : Z.max (Zdigits2 m2 + E - 53) (-1074) - E <= 0).
    { destruct (Z.eq_dec m2 0) as [->|Hpos]; [simpl; lia|].
      rewrite Zdigits2_log2 by lia.
      assert (Z.log2 m2 < 53) by (apply Z.log2_lt_pow2; lia). lia. }
    rewrite shr_none by exact Hs. cbn [shr_m].
    apply encode_value; trivial. lia.
Qed.

Lemma round_up_scale (q r w c : Z) : 0 < c -> round_up q (r * c) (w * c) = round_up q r w.
Proof.
  intros Hc. unfold round_up.
  replace (2 * (r * c)) with (2 * r * c) by ring.
  now rewrite <- (Zmult_compare_compat_r (2 * r) w c) by lia.
Qed.

(** [rndZ] of a scaled mantissa, by the shift the format asks for. *)
Lemma rndZ_scaled (M : positive) (e : Z) :
  -1074 <= e ->
  let n := fexp prec emax (Z.pos (digits2_pos M) + e) - e in
  0 <= n ->
  let q := Z.pos M / 2 ^ n in
  rndZ (Z.pos M * 2 ^ (e + 1074)) =
  (if round_up q (Z.pos M mod 2 ^ n) (2 ^ n) then q + 1 else q) * 2 ^ (e + n + 1074).
Proof.
  intros He n Hn q. unfold rndZ.
  set (c := 2 ^ (e + 1074)).
  assert (Hc : 0 < c) by (apply Z.pow_pos_nonneg; lia).
  assert (Hk : shift_of (Z.pos M * c) = e + n + 1074).
  { unfold shift_of, c. rewrite Z.log2_mul_pow2 by lia.
    unfold n. rewrite fexp64, digits2_log2. lia. }
  rewrite Hk.
  replace (e + n + 1074) with (n + (e + 1074)) by lia.
  rewrite Z.pow_add_r by lia. fold c.
  assert (0 < 2 ^ n) by (apply Z.pow_pos_nonneg; lia).
  rewrite Z.div_mul_cancel_r by lia.
  rewrite Z.mul_mod_distr_r by lia.
  rewrite round_up_scale by lia. reflexivity.
Qed.

Lemma quotient_range (M : positive) (e : Z) :
  -1074 <= e ->
  let n := fexp prec emax (Z.pos (digits2_pos M) + e) - e in
  0 <= n ->
  Z.pos M / 2 ^ n < 2 ^ 53 /\ (-1074 < e + n -> 2 ^ 52 <= Z.pos M / 2 ^ n).
Proof.
  intros He n Hn. unfold n in *. rewrite fexp64, digits2_log2 in *.
  set (l := Z.log2 (Z.pos M)) in *.
  pose proof (Z.log2_spec (Z.pos M) ltac:(lia)) as [L1 L2]. fold l in L1, L2.
  pose proof (Z.log2_nonneg (Z.pos M)) as L0. fold l in L0.
  set (k := Z.max (l + 1 + e - 53) (-1074) - e) in *.
  assert (0 < 2 ^ k) by (apply Z.pow_pos_nonneg; lia).
  split.
  - apply Z.div_lt_upper_bound; [lia|].
    rewrite <- Z.pow_add_r by lia.
    eapply Z.lt_le_trans; [exact L2|]. apply Z.pow_le_mono_r; lia.
  - intros Hk. apply Z.div_le_lower_bound; [lia|].
    rewrite <- Z.pow_add_r by lia.
    eapply Z.le_trans; [|exact L1]. apply Z.pow_le_mono_r; lia.
Qed.

Lemma aux_unfold (M : positive) (e : Z) :
  binary_round_aux prec emax false (Z.pos M) e loc_Exact =
  let '(mrs', e') :=
    shr (Build_shr_record (Z.pos M) false false) e
      (fexp prec emax (Z.pos (digits2_pos M) + e) - e) in
  let '(mrs'', e'') :=
    shr_fexp prec emax (round_nearest_even (shr_m mrs') (loc_of_shr_record mrs')) e' loc_Exact in
  encode (shr_m mrs'') e''.
Proof. reflexivity. Qed.

Lemma aux_value (M : positive) (e : Z) :
  -1074 <= e -> 0 <= fexp prec emax (Z.pos (digits2_pos M) + e) - e ->
  nonneg (binary_round_aux prec emax false (Z.pos M) e loc_Exact) = true
  /\ value (binary_round_aux prec emax false (Z.pos M) e loc_Exact) =
     Z.min top (rndZ (Z.pos M * 2 ^ (e + 1074))).
Proof.
  intros He Hn. rewrite aux_unfold.
  set (n := fexp prec emax (Z.pos (digits2_pos M) + e) - e) in *.
  pose proof (shr_spec (Z.pos M) e n ltac:(lia) Hn) as S.
  destruct (shr {| shr_m := Z.pos M; shr_r := false; shr_s := false |} e n) as [mrs' e'].
  destruct S as [-> [_ ->]].
  set (q := Z.pos M / 2 ^ n).
  set (m2 := if round_up q (Z.pos M mod 2 ^ n) (2 ^ n) then q + 1 else q).
  destruct (quotient_range M e He Hn) as [Q1 Q2]. fold n q in Q1, Q2.
  assert (Q0 : 0 <= q) by (apply Z.div_pos; [lia | apply Z.pow_pos_nonneg; lia]).
  assert (Hm2 : q <= m2 <= q + 1) by (unfold m2; destruct (round_up _ _ _); lia).
  pose proof (stage2 m2 (e + n) ltac:(lia) ltac:(lia) ltac:(intros; specialize (Q2 ltac:(lia)); lia))
    as S2.
  destruct (shr_fexp prec emax m2 (e + n) loc_Exact) as [mrs'' e''].
  rewrite (rndZ_scaled M e He Hn). fold n q m2. exact S2.
Qed.

Lemma iter_xO (m d : positive) : Z.pos (Pos.iter xO m d) = Z.pos m * 2 ^ Z.pos d.
Proof.
  induction d as [|d IH] using Pos.peano_ind.
  - simpl. lia.
  - rewrite Pos.iter_succ, Pos2Z.inj_xO, IH, Pos2Z.inj_succ, Z.pow_succ_r by lia. ring.
Qed.

Lemma shl_align_spec (m : positive) (e e' : Z) :
  let '(mz, ez) := shl_align m e e' in
  ez = Z.min e e' /\ Z.pos mz = Z.pos m * 2 ^ (e - ez).
Proof.
  unfold shl_align. destruct (e' - e) as [|d|d] eqn:E.
  - replace (Z.min e e') with e by lia. rewrite Z.sub_diag. simpl. split; lia.
  - replace (Z.min e e') with e by lia. rewrite Z.sub_diag. simpl. split; lia.
  - split; [lia|]. rewrite iter_xO. do 2 f_equal. lia.
Qed.

(** [binary_round] of a positive mantissa is [rndZ] of its value, or
    infinity. *)
Lemma binary_round_value (m : positive) (e : Z) :
  -1074 <= e ->
  nonneg (binary_round prec emax false m e) = true
  /\ value (binary_round prec emax false m e) = Z.min top (rndZ (Z.pos m * 2 ^ (e + 1074))).
Proof.
  intros He. unfold binary_round.
  pose proof (shl_align_spec m e (fexp prec emax (Z.pos (digits2_pos m) + e))) as S.
  destruct (shl_align m e (fexp prec emax (Z.pos (digits2_pos m) + e))) as [mz ez].
  destruct S as [Hez Hmz].
  assert (Hfe : -1074 <= fexp prec emax (Z.pos (digits2_pos m) + e)) by (rewrite fexp64; lia).
  assert (Hez' : -1074 <= ez <= e) by lia.
  assert (Hd : Z.pos (digits2_pos mz) = Z.pos (digits2_pos m) + (e - ez)).
  { rewrite !digits2_log2, Hmz, Z.log2_mul_pow2 by lia. lia. }
  assert (Hn : 0 <= fexp prec emax (Z.pos (digits2_pos mz) + ez) - ez).
  { rewrite Hd. replace (Z.pos (digits2_pos m) + (e - ez) + ez)
      with (Z.pos (digits2_pos m) + e) by lia. lia. }
  destruct (aux_value mz ez ltac:(lia) Hn) as [H1 H2].
  split; [exact H1|]. rewrite H2, Hmz. do 2 f_equal.
  rewrite <- Z.mul_assoc, <- Z.pow_add_r by lia. do 2 f_equal. lia.
Qed.

Lemma rndZ_value (x : spec_float) :
  valid x = true -> value x < top -> Z.min top (rndZ (value x)) = value x.
Proof.
  intros V Hlt. destruct x as [s|s| |s m e]; cbn [value] in *; try reflexivity; try lia.
  apply valid_finite in V. destruct V as [He [Hm _]].
  rewrite rndZ_exact by lia. lia.
Qed.

Lemma rndZ_top (v : Z) : 0 <= v -> Z.min top (rndZ (top + v)) = top.
Proof.
  intros Hv. assert (top <= rndZ (top + v)).
  { replace top with (rndZ top) at 1.
    - pose proof top_pos. apply rndZ_mono; lia.
    - unfold top. rewrite <- (Z.mul_1_l (2 ^ 2098)). apply rndZ_exact; lia. }
  lia.
Qed.

Lemma value_nonneg (x : spec_float) : valid x = true -> 0 <= value x <= top.
Proof.
  intros V. pose proof top_pos.
  destruct x as [s|s| |s m e]; cbn [value]; try lia.
  pose proof (value_finite_bounds s m e V) as H'. cbn [value] in H'. lia.
Qed.

(** Addition of two numbers that are zero, positive or plus infinity. *)
Lemma SFadd_value (x y : spec_float) :
  valid x = true -> valid y = true -> nonneg x = true -> nonneg y = true ->
  nonneg (SF64add x y) = true
  /\ value (SF64add x y) = Z.min top (rndZ (value x + value y)).
Proof.
  intros Vx Vy Nx Ny. unfold SF64add.
  pose proof top_pos as Htop.
  pose proof (value_nonneg x Vx) as Bx. pose proof (value_nonneg y Vy) as By.
  destruct x as [sx|sx| |sx mx ex], y as [sy|sy| |sy my ey]; cbn [nonneg] in Nx, Ny;
    try discriminate;
    try (apply negb_true_iff in Nx; subst sx); try (apply negb_true_iff in Ny; subst sy);
    cbn [SFadd nonneg negb].
  - assert (E : value (if sx then if sy then S754_zero sx else S754_zero false
                       else if sy then S754_zero false else S754_zero sx) = 0)
      by (destruct sx, sy; reflexivity).
    split; [destruct sx, sy; reflexivity|]. rewrite E. cbn [value]. rewrite Z.add_0_l.
    symmetry. apply (rndZ_value (S754_zero false)); [reflexivity | exact Htop].
  - split; [reflexivity|]. cbn [value]. rewrite Z.add_0_l.
    symmetry. apply (rndZ_top 0). lia.
  - split; [reflexivity|]. cbn [value]. rewrite Z.add_0_l.
    symmetry. apply (rndZ_value (S754_finite false my ey) Vy).
    apply (value_finite_bounds false my ey Vy).
  - split; [reflexivity|]. cbn [value]. rewrite Z.add_0_r.
    symmetry. apply (rndZ_top 0). lia.
  - split; [reflexivity|]. cbn [value] in *. symmetry. apply rndZ_top. lia.
  - split; [reflexivity|]. cbn [value] in *. symmetry. apply rndZ_top. lia.
  - split; [reflexivity|]. cbn [value]. rewrite Z.add_0_r.
    symmetry. apply (rndZ_value (S754_finite false mx ex) Vx).
    apply (value_finite_bounds false mx ex Vx).
  - split; [reflexivity|]. cbn [value] in *.
    symmetry. rewrite Z.add_comm. apply rndZ_top. lia.
  - clear Bx By Htop.
    (* two positive numbers *)
    cbn [cond_Zopp value].
    pose proof (valid_finite _ _ _ Vx) as [Ex _]. pose proof (valid_finite _ _ _ Vy) as [Ey _].
    pose proof (shl_align_spec mx ex (Z.min ex ey)) as Sx.
    pose proof (shl_align_spec my ey (Z.min ex ey)) as Sy.
    destruct (shl_align mx ex (Z.min ex ey)) as [ax zx].
    destruct (shl_align my ey (Z.min ex ey)) as [ay zy].
    destruct Sx as [Zx Ax], Sy as [Zy Ay]. cbn [fst].
    change (Z.pos ax + Z.pos ay) with (Z.pos (ax + ay)). cbn [binary_normalize].
    destruct (binary_round_value (ax + ay) (Z.min ex ey) ltac:(lia)) as [H1 H2].
    split; [exact H1|]. rewrite H2. do 2 f_equal.
    rewrite Pos2Z.inj_add, Ax, Ay, Z.mul_add_distr_r.
    rewrite <- !Z.mul_assoc, <- !Z.pow_add_r by lia.
    f_equal; do 2 f_equal; lia.
Qed.

(** Subtracting a finite number from one that is at least as large. *)
Lemma SFsub_nonneg (x y : spec_float) :
  valid x = true -> valid y = true -> nonneg x = true -> nonneg y = true ->
  value y <= value x -> value y < top ->
  nonneg (SF64sub x y) = true.
Proof.
  intros Vx Vy Nx Ny Hle Hfin. unfold SF64sub.
  destruct x as [sx|sx| |sx mx ex], y as [sy|sy| |sy my ey]; simpl in Nx, Ny;
    try discriminate;
    try (destruct sx; try discriminate); try (destruct sy; try discriminate);
    cbn [SFsub nonneg negb]; try reflexivity;
    cbn [value] in Hle, Hfin; try lia.
  - pose proof (value_finite_bounds _ _ _ Vy) as B. cbn [value] in B. lia.
  - pose proof (value_finite_bounds _ _ _ Vy) as B. cbn [value] in B. lia.
  - cbn [cond_Zopp].
    pose proof (valid_finite _ _ _ Vx) as [Ex _]. pose proof (valid_finite _ _ _ Vy) as [Ey _].
    pose proof (shl_align_spec mx ex (Z.min ex ey)) as Sx.
    pose proof (shl_align_spec my ey (Z.min ex ey)) as Sy.
    destruct (shl_align mx ex (Z.min ex ey)) as [ax zx].
    destruct (shl_align my ey (Z.min ex ey)) as [ay zy].
    destruct Sx as [Zx Ax], Sy as [Zy Ay]. cbn [fst].
    assert (Hd : 0 <= Z.pos ax - Z.pos ay).
    { assert (Hc : 0 < 2 ^ (Z.min ex ey + 1074)) by (apply Z.pow_pos_nonneg; lia).
      assert (Hx : Z.pos mx * 2 ^ (ex + 1074) = Z.pos ax * 2 ^ (Z.min ex ey + 1074)).
      { rewrite Ax, <- Z.mul_assoc, <- Z.pow_add_r by lia. do 2 f_equal. lia. }
      assert (Hy : Z.pos my * 2 ^ (ey + 1074) = Z.pos ay * 2 ^ (Z.min ex ey + 1074)).
      { rewrite Ay, <- Z.mul_assoc, <- Z.pow_add_r by lia. do 2 f_equal. lia. }
      rewrite Hx, Hy in Hle.
      apply Z.mul_le_mono_pos_r in Hle; lia. }
    destruct (Z.pos ax - Z.pos ay) as [|p|p]; [reflexivity| |lia].
    cbn [binary_normalize].
    apply (binary_round_value p (Z.min ex ey)). lia.
Qed.

(** ** The same, on primitive floats *)

Local Open Scope float_scope.

Definition fval (x : float) : Z := value (Prim2SF x).

Definition is_nonneg (x : float) : Prop := (0 <=? x) = true.

Lemma is_nonneg_spec (x : float) : is_nonneg x <-> nonneg (Prim2SF x) = true.
Proof.
  unfold is_nonneg. rewrite leb_spec, nonneg_leb. reflexivity.
Qed.

Lemma leb_fval (x y : float) :
  is_nonneg x -> is_nonneg y -> (x <=? y) = (fval x <=? fval y)%Z.
Proof.
  intros Hx Hy. rewrite leb_spec. apply value_leb;
    try apply Prim2SF_valid; now apply is_nonneg_spec.
Qed.

Lemma add_fval (x y : float) :
  is_nonneg x -> is_nonneg y ->
  is_nonneg (x + y) /\ fval (x + y) = Z.min top (rndZ (fval x + fval y)).
Proof.
  intros Hx Hy. rewrite is_nonneg_spec. unfold fval. rewrite add_spec.
  apply SFadd_value; try apply Prim2SF_valid; now apply is_nonneg_spec.
Qed.

Lemma fval_range (x : float) : (0 <= fval x <= top)%Z.
Proof. apply value_nonneg, Prim2SF_valid. Qed.

Lemma round_int_mono (a b : Z) : (0 <= a -> a <= b -> Z.min top (rndZ a) <= Z.min top (rndZ b))%Z.
Proof.
  intros H0 H. pose proof (rndZ_mono a b H0 H). lia.
Qed.

(** Adding the same nonnegative number keeps the order. *)
Lemma add_le_mono (a b v : float) :
  is_nonneg a -> is_nonneg b -> is_nonneg v ->
  (a <=? b) = true -> (a + v <=? b + v) = true.
Proof.
  intros Ha Hb Hv H.
  destruct (add_fval a v Ha Hv) as [Na Va], (add_fval b v Hb Hv) as [Nb Vb].
  rewrite leb_fval in H |- * by assumption.
  apply Z.leb_le in H. apply Z.leb_le. rewrite Va, Vb.
  pose proof (fval_range a). pose proof (fval_range v).
  apply round_int_mono; lia.
Qed.

(** Adding a nonnegative number does not go below. *)
Lemma add_le_r (a b v : float) :
  is_nonneg a -> is_nonneg b -> is_nonneg v ->
  (a <=? b) = true -> (a <=? b + v) = true.
Proof.
  intros Ha Hb Hv H.
  destruct (add_fval b v Hb Hv) as [Nb Vb].
  rewrite leb_fval in H |- * by assumption.
  apply Z.leb_le in H. apply Z.leb_le. rewrite Vb.
  pose proof (fval_range a). pose proof (fval_range b). pose proof (fval_range v).
  destruct (Z.eq_dec (fval b) top) as [E|E].
  - rewrite E, rndZ_top by lia. lia.
  - apply Z.le_trans with (fval b); [exact H|].
    rewrite <- (rndZ_value (Prim2SF b)) at 1; [|apply Prim2SF_valid | unfold fval in *; lia].
    apply round_int_mono; unfold fval in *; lia.
Qed.

Lemma finite_fval (x : float) : is_nonneg x -> (x <? infinity) = true -> (fval x < top)%Z.
Proof.
  intros Hx H. apply is_nonneg_spec in Hx. rewrite ltb_spec in H. unfold fval.
  pose proof (Prim2SF_valid x) as V.
  change (Prim2SF infinity) with (S754_infinity false) in H.
  destruct (Prim2SF x) as [s|s| |s m e]; simpl in Hx; try discriminate.
  - cbn [value]. exact top_pos.
  - destruct s; discriminate.
  - apply (value_finite_bounds s m e V).
Qed.

(** A finite number taken from one at least as large leaves no less
    than 0. *)
Lemma sub_nonneg (a b : float) :
  is_nonneg a -> is_nonneg b -> (a <=? b) = true -> (a <? infinity) = true ->
  is_nonneg (b - a).
Proof.
  intros Ha Hb H Hfin. pose proof (finite_fval a Ha Hfin) as F.
  rewrite leb_fval in H by assumption. apply Z.leb_le in H.
  apply is_nonneg_spec. rewrite sub_spec.
  apply SFsub_nonneg; try apply Prim2SF_valid; try (now apply is_nonneg_spec); assumption.
Qed.

End Binary64.

(** ** The stable descending sort *)

Section StableSort.

Context {A : Type}.

Implicit Types (x y : float * A) (l : list (float * A)).

(** [x] may stand before [y] in a descending list: [key x >= key y]. *)
Definition desc x y : Prop := fge (fst x) (fst y) = true.

(** The entries whose key equals [v], in list order. *)
Definition with_key (v : float) l : list (float * A) :=
  filter (fun x => PrimFloat.eqb (fst x) v) l.

Lemma insert_desc_perm x l : Permutation (x :: l) (insert_desc x l).
Proof.
  induction l as [|y l IH]; simpl.
  - apply Permutation_refl.
  - destruct (PrimFloat.ltb (fst x) (fst y)).
    + eapply perm_trans; [apply perm_swap|]. now apply perm_skip.
    + apply Permutation_refl.
Qed.

Lemma stable_sort_desc_perm l : Permutation l (stable_sort_desc l).
Proof.
  induction l as [|x l IH]; simpl.
  - apply perm_nil.
  - eapply perm_trans; [apply perm_skip, IH | apply insert_desc_perm].
Qed.

Lemma stable_sort_desc_key_ok l : Forall key_ok l -> Forall key_ok (stable_sort_desc l).
Proof.
  intros H. rewrite Forall_forall in *. intros x Hx. apply H.
  eapply Permutation_in; [apply Permutation_sym, stable_sort_desc_perm | exact Hx].
Qed.

Lemma insert_desc_hd x y l :
  desc y x -> HdRel desc y l -> HdRel desc y (insert_desc x l).
Proof.
  intros Hyx Hl. destruct l as [|z l]; simpl.
  - now constructor.
  - destruct (PrimFloat.ltb (fst x) (fst z)); constructor; trivial.
    now inversion Hl.
Qed.

Lemma insert_desc_sorted x l :
  key_ok x -> Forall key_ok l -> Sorted desc l -> Sorted desc (insert_desc x l).
Proof.
  intros Hx Hl Hs. induction Hs as [|y l Hs IH Hhd]; simpl.
  - repeat constructor.
  - inversion Hl as [|? ? Hy Hl']; subst.
    destruct (PrimFloat.ltb (fst x) (fst y)) eqn:E.
    + constructor; [now apply IH|].
      apply insert_desc_hd; trivial.
      unfold desc, fge. now apply FloatOrder.ltb_leb.
    + constructor; [now constructor|].
      constructor. unfold desc, fge. now apply FloatOrder.ltb_false_leb.
Qed.

(** On NaN-free keys the sort's result is in non-increasing key order. *)
Lemma stable_sort_desc_sorted l : Forall key_ok l -> Sorted desc (stable_sort_desc l).
Proof.
  induction l as [|x l IH]; simpl; intros H.
  - constructor.
  - inversion H; subst. apply insert_desc_sorted; auto using stable_sort_desc_key_ok.
Qed.

Lemma desc_trans x y z : desc x y -> desc y z -> desc x z.
Proof.
  unfold desc, fge. intros H1 H2. eapply FloatOrder.leb_trans; eassumption.
Qed.

(** ... so every entry's key is at least the key of every later entry. *)
Lemma stable_sort_desc_strongly_sorted l :
  Forall key_ok l -> StronglySorted desc (stable_sort_desc l).
Proof.
  intros H. apply Sorted_StronglySorted.
  - intros x y z. apply desc_trans.
  - now apply stable_sort_desc_sorted.
Qed.

Lemma with_key_insert_desc v x l :
  with_key v (insert_desc x l) = with_key v (x :: l).
Proof.
  unfold with_key.
  induction l as [|y l IH]; simpl; [reflexivity|].
  destruct (PrimFloat.ltb (fst x) (fst y)) eqn:E; [|reflexivity].
  simpl. rewrite IH. simpl.
  destruct (PrimFloat.eqb (fst x) v) eqn:Ex; [|reflexivity].
  now rewrite (FloatOrder.eqb_ltb_eqb v _ _ Ex E).
Qed.

(** Stability: the entries with any one key keep their input order. *)
Lemma stable_sort_desc_stable v l : with_key v (stable_sort_desc l) = with_key v l.
Proof.
  induction l as [|x l IH]; simpl; [reflexivity|].
  rewrite with_key_insert_desc. unfold with_key in *. simpl. now rewrite IH.
Qed.

End StableSort.

(** The reference runtime, for responses in ASCII: the parser and formats
    above, the str methods as they are on ASCII strings, and the insertion
    sort as the list sort.  It is one runtime that meets the contract, used
    to run the handlers on examples; outside ASCII strings, and in the
    order of a list with a NaN among three or more keys, Python's own
    runtime may differ from it, which the contract allows. *)
#[export] Instance reference_runtime : PyRuntime := {|
  strip := ascii_strip;
  upper := ascii_upper;
  lower := ascii_lower;
  strip_on_ascii := fun s _ => eq_refl;
  upper_on_ascii := fun s _ => eq_refl;
  lower_on_ascii := fun s _ => eq_refl;
  str_to_float := Reference.float_of_string;
  format_grouped_2f := Reference.format_grouped;
  format_percent_2 := Reference.format_percent;
  sorted_reverse := @stable_sort_desc;
  sorted_reverse_perm := @stable_sort_desc_perm;
  sorted_reverse_stable := fun A l _ => eq_refl
|}.

(** ** What the rendering loops compute *)

(** A rendered pair of the volume report: the values a block is built from. *)
Record entry : Type := {
  e_base : string;
  e_quote : string;
  e_dex : string;
  e_liquidity : float;
  e_vol : float
}.

(** [f i x0; f (i+1) x1; ...]: a list numbered as [enumerate] numbers it. *)
Fixpoint number_from {A B : Type} (f : nat -> A -> B) (i : nat) (l : list A) : list B :=
  match l with
  | [] => []
  | a :: l' => f i a :: number_from f (S i) l'
  end.

(** The running sum [((init + x0) + x1) + ...]. *)
Definition sum_floats (init : float) (l : list float) : float :=
  fold_left PrimFloat.add l init.

Definition in_summary {rt : PyRuntime} (e : entry) : bool :=
  is_sol_drip_raydium (e_base e) (e_quote e) (e_dex e).

Section Rendering.

Context {rt : PyRuntime}.

(** The volume a pair is ranked and summed by. *)
Definition volume_key (p : pyobj) : float :=
  match volume_h24 p with
  | inr v => v
  | inl _ => fzero
  end.

(** What one pass of the volume loop reads from a pair. *)
Definition read_entry (p : pyobj) : result entry :=
  base <- token_symbol "baseToken" p ;;
  quote <- token_symbol "quoteToken" p ;;
  dex <- dex_id p ;;
  liquidity_val <- liquidity_usd p ;;
  ret {| e_base := base; e_quote := quote; e_dex := dex;
         e_liquidity := liquidity_val; e_vol := volume_key p |}.

Definition entry_line (i : nat) (e : entry) : string :=
  volume_line (icon_for i) (e_base e) (e_quote e) (e_dex e)
    (format_usd (PyFloat (e_liquidity e))) (format_usd (PyFloat (e_vol e))).

(** The loop's state after rendering [es] from index [i] on. *)
Definition state_after (show_summary : bool) (i : nat) (es : list entry) (st : loop_state)
  : loop_state :=
  {| lines := lines st ++ number_from entry_line i es;
     total_volume := sum_floats (total_volume st) (map e_vol es);
     sol_ray_vol :=
       if show_summary
       then sum_floats (sol_ray_vol st) (map e_vol (filter in_summary es))
       else sol_ray_vol st |}.

Lemma gt0_fzero : gt0 fzero = false.
Proof. reflexivity. Qed.

(** A pair that passed the filter has a liquidity that parses, to a value
    above 0. *)
Lemma has_liquidity_parses (p : pyobj) :
  has_liquidity p = true <-> exists v, liquidity_usd p = inr v /\ gt0 v = true.
Proof.
  unfold has_liquidity, filter_liquidity. split.
  - destruct (liquidity_usd p) as [e|v]; intros H.
    + rewrite gt0_fzero in H. discriminate.
    + now exists v.
  - intros [v [-> Hv]]. exact Hv.
Qed.

Lemma state_after_nil (show_summary : bool) (i : nat) (st : loop_state) :
  state_after show_summary i [] st = st.
Proof.
  unfold state_after, sum_floats. destruct st as [ls t s]; simpl.
  rewrite app_nil_r. now destruct show_summary.
Qed.

Lemma state_after_cons (show_summary : bool) (i : nat) (e : entry) (es : list entry)
    (st : loop_state) :
  state_after show_summary i (e :: es) st =
  state_after show_summary (S i) es
    {| lines := lines st ++ [entry_line i e];
       total_volume := (total_volume st + e_vol e)%float;
       sol_ray_vol :=
         if show_summary && in_summary e
         then (sol_ray_vol st + e_vol e)%float
         else sol_ray_vol st |}.
Proof.
  unfold state_after, sum_floats; simpl. rewrite <- app_assoc. simpl.
  f_equal. destruct show_summary; simpl; [|reflexivity].
  now destruct (in_summary e).
Qed.

(** On pairs that passed the filter the loop never takes its [continue]:
    it reads every pair and renders it, unless a symbol or exchange field
    raises. *)
Lemma volume_loop_spec (show_summary : bool) (ps : list pyobj) :
  Forall (fun p => has_liquidity p = true) ps ->
  forall (i : nat) (st : loop_state),
    volume_loop show_summary i ps st =
    (es <- mapM read_entry ps ;; ret (state_after show_summary i es st)).
Proof.
  induction 1 as [|p ps Hp Hps IH]; intros i st.
  - simpl. now rewrite state_after_nil.
  - apply has_liquidity_parses in Hp. destruct Hp as [v [Hv _]].
    simpl. unfold read_entry at 1.
    destruct (token_symbol "baseToken" p) as [e|base]; [reflexivity|]. simpl.
    destruct (token_symbol "quoteToken" p) as [e|quote]; [reflexivity|]. simpl.
    destruct (dex_id p) as [e|dex]; [reflexivity|]. simpl.
    rewrite Hv. simpl. rewrite IH.
    destruct (mapM read_entry ps) as [e|es]; [reflexivity|]. simpl.
    now rewrite state_after_cons.
Qed.

End Rendering.

(** ** Ranking a list by a key *)

Section Ranking.

Context {A : Type} (k : A -> float).

(** Each item with its key in front, as the sort sees the list. *)
Definition decorate (l : list A) : list (float * A) := map (fun a => (k a, a)) l.

(** [a] may stand before [b]: [k a >= k b]. *)
Definition ranks_before (a b : A) : Prop := fge (k a) (k b) = true.

(** The items whose key equals [v], in list order. *)
Definition keyed (v : float) (l : list A) : list A :=
  filter (fun a => PrimFloat.eqb (k a) v) l.

Definition no_nan_key (l : list A) : Prop :=
  Forall (fun a => PrimFloat.is_nan (k a) = false) l.

Definition ranked (l : list A) : list A := map snd (stable_sort_desc (decorate l)).

Lemma decorate_snd (l : list A) : map snd (decorate l) = l.
Proof.
  unfold decorate. rewrite map_map. simpl. apply map_id.
Qed.

Lemma decorated_undo (d : list (float * A)) :
  Forall (fun x => fst x = k (snd x)) d -> decorate (map snd d) = d.
Proof.
  unfold decorate.
  induction 1 as [|[v a] d Hx Hd IH]; simpl; [reflexivity|].
  simpl in Hx. subst v. now rewrite IH.
Qed.

Lemma decorate_keys (l : list A) : Forall (fun x => fst x = k (snd x)) (decorate l).
Proof.
  unfold decorate. apply Forall_forall. intros x Hx.
  apply in_map_iff in Hx. destruct Hx as [a [<- _]]. reflexivity.
Qed.

Lemma decorate_perm_undo (l : list A) (d : list (float * A)) :
  Permutation (decorate l) d -> decorate (map snd d) = d.
Proof.
  intros H. apply decorated_undo.
  eapply Permutation_Forall; [exact H | apply decorate_keys].
Qed.

Lemma perm_ranked (l : list A) (d : list (float * A)) :
  Permutation (decorate l) d -> Permutation l (map snd d).
Proof.
  intros H. rewrite <- (decorate_snd l) at 1. now apply Permutation_map.
Qed.

Lemma decorate_key_ok (l : list A) : no_nan_key l -> Forall key_ok (decorate l).
Proof.
  unfold no_nan_key, decorate. intros H. apply Forall_map.
  eapply Forall_impl; [|exact H]. intros a Ha. exact Ha.
Qed.

Lemma decorate_sorted (l : list A) : Sorted desc (decorate l) -> Sorted ranks_before l.
Proof.
  induction l as [|a l IH]; simpl; intros H; [constructor|].
  inversion H as [|? ? Hs Hh]; subst. constructor; [now apply IH|].
  destruct l as [|b l]; simpl in *; constructor.
  inversion Hh; subst. assumption.
Qed.

Lemma decorate_keyed (v : float) (l : list A) :
  with_key v (decorate l) = decorate (keyed v l).
Proof.
  unfold with_key, keyed, decorate.
  induction l as [|a l IH]; simpl; [reflexivity|].
  destruct (PrimFloat.eqb (k a) v); simpl; now rewrite IH.
Qed.

Lemma ranked_decorate (l : list A) : decorate (ranked l) = stable_sort_desc (decorate l).
Proof.
  apply (decorate_perm_undo l). apply stable_sort_desc_perm.
Qed.

Lemma ranked_perm (l : list A) : Permutation l (ranked l).
Proof.
  apply perm_ranked, stable_sort_desc_perm.
Qed.

(** On NaN-free keys the ranking is in non-increasing key order. *)
Lemma ranked_sorted (l : list A) : no_nan_key l -> Sorted ranks_before (ranked l).
Proof.
  intros H. apply decorate_sorted. rewrite ranked_decorate.
  now apply stable_sort_desc_sorted, decorate_key_ok.
Qed.

Lemma ranks_before_trans (a b c : A) :
  ranks_before a b -> ranks_before b c -> ranks_before a c.
Proof.
  unfold ranks_before, fge. intros H1 H2. eapply FloatOrder.leb_trans; eassumption.
Qed.

Lemma ranked_strongly_sorted (l : list A) :
  no_nan_key l -> StronglySorted ranks_before (ranked l).
Proof.
  intros H. apply Sorted_StronglySorted.
  - intros a b c. apply ranks_before_trans.
  - now apply ranked_sorted.
Qed.

(** The ranking is stable: the items with any one key keep their order. *)
Lemma ranked_stable (v : float) (l : list A) : keyed v (ranked l) = keyed v l.
Proof.
  rewrite <- (decorate_snd (keyed v (ranked l))), <- (decorate_snd (keyed v l)).
  f_equal. rewrite <- !decorate_keyed, ranked_decorate.
  apply stable_sort_desc_stable.
Qed.

End Ranking.

(** ** The handlers, step by step *)

Section Reports.

Context {rt : PyRuntime}.

Variable http_get_json : string -> string + pyobj.

(** A key that never raises on [l] is read for every item. *)
Lemma mapM_total {A B : Type} (f : A -> result B) (g : A -> B) (l : list A) :
  Forall (fun a => f a = inr (g a)) l -> mapM f l = inr (map g l).
Proof.
  induction 1 as [|a l Ha Hl IH]; simpl; [reflexivity|].
  now rewrite Ha, IH.
Qed.

(** A key that raises on some item ends [mapM] with a raise. *)
Lemma mapM_raises {A B : Type} (f : A -> result B) (l : list A) (a : A) (e : pyexn) :
  In a l -> f a = inl e -> exists e', mapM f l = inl e'.
Proof.
  induction l as [|b l IH]; simpl; [tauto|].
  intros [->|Hin] Ha.
  - rewrite Ha. now exists e.
  - destruct (f b) as [e'|v]; simpl; [now exists e'|].
    destruct (IH Hin Ha) as [e' ->]. now exists e'.
Qed.

Lemma mapM_length {A B : Type} (f : A -> result B) (l : list A) (bs : list B) :
  mapM f l = inr bs -> List.length bs = List.length l.
Proof.
  revert bs. induction l as [|a l IH]; simpl; intros bs H.
  - inversion H. reflexivity.
  - destruct (f a) as [e|b]; simpl in H; [discriminate|].
    destruct (mapM f l) as [e|bs']; simpl in H; [discriminate|].
    inversion H; subst. simpl. f_equal. now apply IH.
Qed.

Lemma combine_decorate {A : Type} (k : A -> float) (l : list A) :
  combine (map k l) l = decorate k l.
Proof.
  unfold decorate. induction l as [|a l IH]; simpl; [reflexivity|]. now rewrite IH.
Qed.

Lemma map_snd_combine {A B : Type} (keys : list B) (l : list A) :
  List.length keys = List.length l -> map snd (combine keys l) = l.
Proof.
  revert keys. induction l as [|a l IH]; intros [|key keys] H; simpl in *;
    try discriminate; [reflexivity|].
  f_equal. apply IH. now injection H.
Qed.

(** The volume of a pair parses. *)
Definition volume_parses (p : pyobj) : Prop := exists v, volume_h24 p = inr v.

Lemma volume_parses_key (p : pyobj) : volume_parses p -> volume_h24 p = inr (volume_key p).
Proof.
  intros [v H]. unfold volume_key. now rewrite H.
Qed.

(** The list [sorted] returns for the volume ranking when every key parses. *)
Definition volume_ranking (l : list pyobj) : list pyobj :=
  map snd (sorted_reverse (decorate volume_key l)).

Lemma sorted_by_volume (l : list pyobj) :
  Forall volume_parses l -> sorted_by_key volume_h24 l = inr (volume_ranking l).
Proof.
  intros H. unfold sorted_by_key, volume_ranking.
  rewrite (mapM_total volume_h24 volume_key).
  - simpl. now rewrite combine_decorate.
  - eapply Forall_impl; [|exact H]. apply volume_parses_key.
Qed.

Lemma sorted_by_volume_raises (l : list pyobj) (p : pyobj) (e : pyexn) :
  In p l -> volume_h24 p = inl e -> exists e', sorted_by_key volume_h24 l = inl e'.
Proof.
  intros Hin Hp. unfold sorted_by_key.
  destruct (mapM_raises volume_h24 l p e Hin Hp) as [e' ->]. now exists e'.
Qed.

Lemma volume_ranking_perm (l : list pyobj) : Permutation l (volume_ranking l).
Proof.
  apply (perm_ranked volume_key), sorted_reverse_perm.
Qed.

Lemma volume_ranking_ranked (l : list pyobj) :
  no_nan_key volume_key l -> volume_ranking l = ranked volume_key l.
Proof.
  intros H. unfold volume_ranking, ranked.
  now rewrite sorted_reverse_stable by now apply decorate_key_ok.
Qed.

Lemma filter_pairs_liquid (ps : list pyobj) :
  Forall (fun p => has_liquidity p = true) (filter_pairs ps).
Proof.
  apply Forall_forall. intros p Hp. now apply filter_In in Hp.
Qed.

(** The loop's state before the first pair. *)
Definition first_state (n : nat) : loop_state :=
  {| lines := [volume_header n]; total_volume := fzero; sol_ray_vol := fzero |}.

(** The state the loop ends in after rendering [es]. *)
Definition rendered (show_summary : bool) (es : list entry) : loop_state :=
  state_after show_summary 0 es (first_state (List.length es)).

(** [volume_report] on a response whose [pairs] is a non-empty list. *)
Lemma volume_report_pairs (d : list (string * pyobj)) (ps : list pyobj) (show_summary : bool) :
  lookup "pairs" d = Some (PyList ps) -> ps <> [] ->
  volume_report (PyDict d) show_summary =
  match filter_pairs ps with
  | [] => ret (no_liquidity_text, false)
  | _ =>
      pairs_sorted <- sorted_by_key volume_h24 (filter_pairs ps) ;;
      es <- mapM read_entry pairs_sorted ;;
      ret (volume_text show_summary (rendered show_summary es), true)
  end.
Proof.
  intros Hd Hps. unfold volume_report. simpl. rewrite Hd. simpl.
  unfold py_or. simpl. destruct ps as [|p0 ps0]; [now elim Hps|]. simpl negb. cbv iota.
  simpl py_iter. unfold bind at 1. unfold ret at 1.
  set (ps := p0 :: ps0) in *.
  destruct (filter_pairs ps) as [|q qs] eqn:Ef; [reflexivity|]. rewrite <- Ef.
  destruct (sorted_by_key volume_h24 (filter_pairs ps)) as [e|pairs_sorted] eqn:Es;
    [reflexivity|]. simpl.
  assert (Hperm : Permutation (filter_pairs ps) pairs_sorted).
  { unfold sorted_by_key in Es.
    destruct (mapM volume_h24 (filter_pairs ps)) as [e|keys] eqn:Ek; [discriminate|].
    simpl in Es. inversion Es; subst. clear Es.
    assert (Hlen := mapM_length _ _ _ Ek).
    rewrite <- (map_snd_combine keys (filter_pairs ps) Hlen) at 1.
    apply Permutation_map, sorted_reverse_perm. }
  rewrite volume_loop_spec.
  - destruct (mapM read_entry pairs_sorted) as [e|es] eqn:Ee; [reflexivity|]. simpl.
    unfold rendered, first_state.
    now rewrite (mapM_length _ _ _ Ee).
  - eapply Permutation_Forall; [exact Hperm | apply filter_pairs_liquid].
Qed.

Lemma mapM_defined {A B : Type} (f : A -> result B) (l : list A) (bs : list B) :
  mapM f l = inr bs -> Forall (fun a => exists b, f a = inr b) l.
Proof.
  revert bs. induction l as [|a l IH]; simpl; intros bs H; [constructor|].
  destruct (f a) as [e|b] eqn:Ea; simpl in H; [discriminate|].
  destruct (mapM f l) as [e|bs']; simpl in H; [discriminate|].
  constructor; [now exists b | now apply (IH bs')].
Qed.

(** The one way [volume_report] sends a Markdown report on a [pairs] list:
    some pair passes the filter, every filtered pair's volume parses, and
    every ranked pair's symbol and exchange fields can be read; the text is
    then the rendering of the ranked pairs, in ranking order. *)
Lemma volume_report_markdown (d : list (string * pyobj)) (ps : list pyobj)
    (show_summary : bool) (text : string) :
  lookup "pairs" d = Some (PyList ps) ->
  volume_report (PyDict d) show_summary = inr (text, true) <->
  filter_pairs ps <> [] /\ Forall volume_parses (filter_pairs ps) /\
  exists es, mapM read_entry (volume_ranking (filter_pairs ps)) = inr es /\
             text = volume_text show_summary (rendered show_summary es).
Proof.
  intros Hd. destruct ps as [|p0 ps0].
  { unfold volume_report. simpl. rewrite Hd. simpl. split.
    - intros H. discriminate H.
    - intros [H _]. now elim H. }
  rewrite (volume_report_pairs d _ show_summary Hd) by discriminate.
  set (ps := p0 :: ps0). destruct (filter_pairs ps) as [|q qs] eqn:Ef.
  { split; [intros H; discriminate H | intros [H _]; now elim H]. }
  rewrite <- Ef. split.
  - intros H.
    assert (Hv : Forall volume_parses (filter_pairs ps)).
    { destruct (mapM volume_h24 (filter_pairs ps)) as [e|keys] eqn:Ek.
      - unfold sorted_by_key in H. rewrite Ek in H. discriminate H.
      - exact (mapM_defined _ _ _ Ek). }
    rewrite (sorted_by_volume _ Hv) in H. cbn [bind ret] in H.
    destruct (mapM read_entry (volume_ranking (filter_pairs ps))) as [e|es] eqn:Ee;
      [discriminate H|].
    injection H as <-.
    split; [rewrite Ef; discriminate|]. split; [exact Hv|]. now exists es.
  - intros [_ [Hv [es [He ->]]]].
    rewrite (sorted_by_volume _ Hv). cbn [bind ret]. rewrite He. reflexivity.
Qed.

End Reports.

(** ** The ratio report, step by step *)

(** A rendered pair of the ratio report. *)
Record ratio_row : Type := {
  r_base : string;
  r_quote : string;
  r_dex : string;
  r_liquidity : float;
  r_vol : float;
  r_ratio : float
}.

Definition entry_pair (x : ratio_entry) : pyobj := snd (snd x).

Section RatioReport.

Context {rt : PyRuntime}.

(** Both numbers of a pair parse and both are above 0. *)
Definition ratio_eligible (p : pyobj) : bool :=
  match liquidity_usd p, volume_h24 p with
  | inr liquidity_val, inr vol24h_val => gt0 liquidity_val && gt0 vol24h_val
  | _, _ => false
  end.

(** The entry [collect_ratios] makes of an eligible pair. *)
Definition entry_of (p : pyobj) : ratio_entry :=
  let l := filter_liquidity p in
  let v := volume_key p in
  ((v / l)%float, (l, v, p)).

(** What one pass of the ratio loop reads from an entry. *)
Definition read_row (x : ratio_entry) : result ratio_row :=
  let '(ratio, (liquidity_val, vol24h_val, p)) := x in
  base <- token_symbol "baseToken" p ;;
  quote <- token_symbol "quoteToken" p ;;
  dex <- dex_id p ;;
  ret {| r_base := base; r_quote := quote; r_dex := dex;
         r_liquidity := liquidity_val; r_vol := vol24h_val; r_ratio := ratio |}.

Definition row_line (i : nat) (r : ratio_row) : string :=
  ratio_line (icon_for i) (r_base r) (r_quote r) (r_dex r)
    (format_usd (PyFloat (r_liquidity r))) (format_usd (PyFloat (r_vol r)))
    (format_pct (PyFloat (r_ratio r))).

Definition ratio_text (rows : list ratio_row) : string :=
  join nl (ratio_header (List.length rows) :: number_from row_line 0 rows).

Definition ratio_ranking (ps : list pyobj) : list ratio_entry :=
  sorted_reverse (collect_ratios ps).

Lemma ratio_eligible_spec (p : pyobj) :
  ratio_eligible p = true <->
  exists l v, liquidity_usd p = inr l /\ volume_h24 p = inr v /\
              gt0 l = true /\ gt0 v = true.
Proof.
  unfold ratio_eligible. split.
  - destruct (liquidity_usd p) as [e|l]; [discriminate|].
    destruct (volume_h24 p) as [e|v]; [discriminate|].
    intros H. apply andb_true_iff in H. exists l, v. tauto.
  - intros [l [v [-> [-> [Hl Hv]]]]]. now rewrite Hl, Hv.
Qed.

Lemma collect_ratios_step (p : pyobj) (rest : list ratio_entry) :
  match (l <- liquidity_usd p ;; v <- volume_h24 p ;; ret (l, v)) with
  | inl _ => rest
  | inr (liquidity_val, vol24h_val) =>
      if gt0 liquidity_val && gt0 vol24h_val
      then ((vol24h_val / liquidity_val)%float, (liquidity_val, vol24h_val, p)) :: rest
      else rest
  end = if ratio_eligible p then entry_of p :: rest else rest.
Proof.
  unfold ratio_eligible, entry_of, filter_liquidity, volume_key.
  destruct (liquidity_usd p) as [e|l]; simpl; [reflexivity|].
  destruct (volume_h24 p) as [e|v]; simpl; [reflexivity|].
  destruct (gt0 l && gt0 v); reflexivity.
Qed.

(** [ratios] holds exactly the eligible pairs, in input order, each with
    its ratio, liquidity and volume. *)
Lemma collect_ratios_spec (ps : list pyobj) :
  collect_ratios ps = map entry_of (filter ratio_eligible ps).
Proof.
  induction ps as [|p ps IH]; [reflexivity|].
  cbn [collect_ratios filter]. rewrite IH, collect_ratios_step.
  now destruct (ratio_eligible p).
Qed.

Lemma collect_ratios_pairs (ps : list pyobj) :
  map entry_pair (collect_ratios ps) = filter ratio_eligible ps.
Proof.
  rewrite collect_ratios_spec, map_map. apply map_id.
Qed.

Lemma ratio_loop_spec (rs : list ratio_entry) :
  forall (i : nat) (acc : list string),
    ratio_loop i rs acc =
    (rows <- mapM read_row rs ;; ret (acc ++ number_from row_line i rows)).
Proof.
  induction rs as [|[ratio [[l v] p]] rs IH]; intros i acc; simpl.
  - now rewrite app_nil_r.
  - destruct (token_symbol "baseToken" p) as [e|base]; [reflexivity|]. simpl.
    destruct (token_symbol "quoteToken" p) as [e|quote]; [reflexivity|]. simpl.
    destruct (dex_id p) as [e|dex]; [reflexivity|]. simpl.
    rewrite IH. destruct (mapM read_row rs) as [e|rows]; [reflexivity|]. simpl.
    now rewrite <- app_assoc.
Qed.

(** [ratio_report] on a response whose [pairs] is a non-empty list. *)
Lemma ratio_report_pairs (d : list (string * pyobj)) (ps : list pyobj) :
  lookup "pairs" d = Some (PyList ps) -> ps <> [] ->
  ratio_report (PyDict d) =
  match collect_ratios ps with
  | [] => ret (no_ratio_text, false)
  | _ => rows <- mapM read_row (ratio_ranking ps) ;; ret (ratio_text rows, true)
  end.
Proof.
  intros Hd Hps. unfold ratio_report. simpl. rewrite Hd. simpl. unfold py_or.
  destruct ps as [|p0 ps0]; [now elim Hps|].
  simpl truthy. cbv iota. simpl negb. cbv iota. simpl py_iter.
  unfold bind at 1. unfold ret at 1.
  set (ps := p0 :: ps0). fold (ratio_ranking ps).
  destruct (collect_ratios ps) as [|x xs] eqn:Ec; [reflexivity|].
  rewrite ratio_loop_spec.
  destruct (mapM read_row (ratio_ranking ps)) as [e|rows] eqn:Er; [reflexivity|].
  cbn [bind ret]. unfold ratio_text. now rewrite (mapM_length _ _ _ Er).
Qed.

(** The one way [ratio_report] sends a Markdown report on a [pairs] list:
    some pair is eligible and every ranked pair's symbol and exchange
    fields can be read; the text renders the ranked entries in order. *)
Lemma ratio_report_markdown (d : list (string * pyobj)) (ps : list pyobj) (text : string) :
  lookup "pairs" d = Some (PyList ps) ->
  ratio_report (PyDict d) = inr (text, true) <->
  collect_ratios ps <> [] /\
  exists rows, mapM read_row (ratio_ranking ps) = inr rows /\ text = ratio_text rows.
Proof.
  intros Hd. destruct ps as [|p0 ps0].
  { unfold ratio_report. simpl. rewrite Hd. simpl.
    split; [intros H; discriminate H | intros [H _]; now elim H]. }
  rewrite (ratio_report_pairs d _ Hd) by discriminate.
  set (ps := p0 :: ps0).
  destruct (collect_ratios ps) as [|x xs] eqn:Ec.
  { split; [intros H; discriminate H | intros [H _]; now elim H]. }
  split.
  - intros H. split; [discriminate|].
    destruct (mapM read_row (ratio_ranking ps)) as [e|rows] eqn:Er; [discriminate H|].
    cbn [bind ret] in H. injection H as <-. now exists rows.
  - intros [_ [rows [Hr ->]]]. now rewrite Hr.
Qed.

End RatioReport.

(** * The claims *)

(** ** Concrete responses *)

(** A pair record as the service sends it. *)
Definition sample_pair (base quote dex : string) (liquidity vol : pyobj) : pyobj :=
  PyDict [ ("baseToken", PyDict [("symbol", PyStr base)]);
           ("quoteToken", PyDict [("symbol", PyStr quote)]);
           ("dexId", PyStr dex);
           ("liquidity", PyDict [("usd", liquidity)]);
           ("volume", PyDict [("h24", vol)]) ].

(** The body [{"pairs": [...]}]. *)
Definition response (pairs : list pyobj) : list (string * pyobj) :=
  [("pairs", PyList pairs)].

(** A service that answers every request with [data]. *)
Definition serve (data : pyobj) : string -> string + pyobj := fun _ => inr data.

(** The [pairs] field of a body is absent, null or an empty array. *)
Definition pairs_absent (d : list (string * pyobj)) : Prop :=
  lookup "pairs" d = None \/ lookup "pairs" d = Some PyNone \/
  lookup "pairs" d = Some (PyList []).

Section EarlyReplies.

Context {rt : PyRuntime}.

Variable http_get_json : string -> string + pyobj.

(** C8: [/volume_other] and [/ratio_other] called with no argument reply
    with exactly their usage message and nothing else happens: the run has
    no [Fetch] event, whatever the service would answer. *)
Theorem other_commands_without_address :
  volume_other http_get_json [] =
    {| events := [Reply "Usage: /volume_other <TOKEN_CA>" false]; raised := None |}
  /\ ratio_other http_get_json [] =
    {| events := [Reply "Usage: /ratio_other <TOKEN_CA>" false]; raised := None |}
  /\ (forall url, ~ In (Fetch url) (events (volume_other http_get_json [])))
  /\ (forall url, ~ In (Fetch url) (events (ratio_other http_get_json []))).
Proof.
  repeat split; simpl; intros url [H|[]]; discriminate H.
Qed.

(** C7: when the fetched body has no [pairs] field, or has it null or
    empty, both handlers reply with exactly "No pairs found in DexScreener
    response." and return: the reply is the only event after the fetch and
    nothing is raised. *)
Theorem no_pairs_reply (contract_address : string) (show_summary : bool)
    (d : list (string * pyobj)) :
  http_get_json (fetch_url contract_address) = inr (PyDict d) ->
  pairs_absent d ->
  handle_volume http_get_json contract_address show_summary =
    {| events := [Fetch (fetch_url contract_address);
                  Reply "No pairs found in DexScreener response." false];
       raised := None |}
  /\ handle_ratio http_get_json contract_address =
    {| events := [Fetch (fetch_url contract_address);
                  Reply "No pairs found in DexScreener response." false];
       raised := None |}.
Proof.
  intros Hfetch Habs.
  unfold handle_volume, handle_ratio, run_report, fetch_token_endpoint.
  rewrite Hfetch. unfold volume_report, ratio_report. simpl.
  destruct Habs as [H|[H|H]]; rewrite H; simpl; split; reflexivity.
Qed.

End EarlyReplies.

Lemma no_pairs_reply_witness :
  handle_volume (serve (PyDict (response []))) home_token true =
    {| events := [Fetch (fetch_url home_token);
                  Reply "No pairs found in DexScreener response." false];
       raised := None |}
  /\ handle_ratio (serve (PyDict (response []))) home_token =
    {| events := [Fetch (fetch_url home_token);
                  Reply "No pairs found in DexScreener response." false];
       raised := None |}.
Proof.
  apply (no_pairs_reply (serve (PyDict (response []))) home_token true (response [])).
  - reflexivity.
  - right. right. reflexivity.
Defined.

(** The [usd] field of a pair's liquidity is missing or null. *)
Definition usd_absent (p : pyobj) : Prop :=
  exists items liq,
    p = PyDict items /\ lookup "liquidity" items = Some (PyDict liq) /\
    (lookup "usd" liq = None \/ lookup "usd" liq = Some PyNone).

Section VolumeFilter.

Context {rt : PyRuntime}.

Variable http_get_json : string -> string + pyobj.

Lemma usd_absent_zero (p : pyobj) : usd_absent p -> liquidity_usd p = inr fzero.
Proof.
  intros [items [liq [-> [Hl Hu]]]].
  unfold liquidity_usd, nested_float. simpl. rewrite Hl. simpl.
  destruct Hu as [-> | ->]; reflexivity.
Qed.

(** C3 (amended): the filter of [handle_volume] keeps exactly the pairs
    whose liquidity parses to a value above 0, in input order; a pair whose
    [liquidity.usd] is missing or null (read as 0) or does not parse is
    dropped; and when the [pairs] list is not empty but no pair survives,
    the handler replies "No valid LP pairs with liquidity found." and
    returns. *)
Theorem volume_filter_keeps_liquid_pairs (contract_address : string) (show_summary : bool)
    (d : list (string * pyobj)) (ps : list pyobj) :
  (forall p, In p (filter_pairs ps) <->
             In p ps /\ exists v, liquidity_usd p = inr v /\ gt0 v = true)
  /\ (forall p, usd_absent p \/ (exists e, liquidity_usd p = inl e) ->
                ~ In p (filter_pairs ps))
  /\ (http_get_json (fetch_url contract_address) = inr (PyDict d) ->
      lookup "pairs" d = Some (PyList ps) -> ps <> [] -> filter_pairs ps = [] ->
      handle_volume http_get_json contract_address show_summary =
        {| events := [Fetch (fetch_url contract_address);
                      Reply "No valid LP pairs with liquidity found." false];
           raised := None |}).
Proof.
  assert (Hin : forall p, In p (filter_pairs ps) <->
                          In p ps /\ exists v, liquidity_usd p = inr v /\ gt0 v = true).
  { intros p. unfold filter_pairs. rewrite filter_In, has_liquidity_parses. tauto. }
  split; [exact Hin|]. split.
  - intros p Hp Hfil. apply Hin in Hfil. destruct Hfil as [_ [v [Hv Hgt]]].
    destruct Hp as [Habs | [e He]].
    + rewrite (usd_absent_zero p Habs) in Hv. injection Hv as <-.
      rewrite gt0_fzero in Hgt. discriminate.
    + rewrite He in Hv. discriminate.
  - intros Hfetch Hd Hps Hnone.
    unfold handle_volume, run_report, fetch_token_endpoint. rewrite Hfetch.
    rewrite (volume_report_pairs d ps show_summary Hd Hps), Hnone. reflexivity.
Qed.

End VolumeFilter.

(** A response with one pair whose [liquidity] has no [usd] and one whose
    [usd] is not a number. *)
Definition illiquid_pairs : list pyobj :=
  [ PyDict [("liquidity", PyDict []); ("volume", PyDict [("h24", PyInt 5000)])];
    sample_pair "DRIP" "SOL" "raydium" (PyStr "n/a") (PyInt 8000) ].

(** C3, as stated, fails on the empty list: no pair survives the filter,
    and the reply is the one of the earlier check, "No pairs found in
    DexScreener response.". *)
Lemma empty_pairs_reply_is_no_pairs :
  filter_pairs [] = []
  /\ handle_volume (serve (PyDict (response []))) home_token true =
     {| events := [Fetch (fetch_url home_token);
                   Reply "No pairs found in DexScreener response." false];
        raised := None |}
  /\ "No pairs found in DexScreener response." <> "No valid LP pairs with liquidity found.".
Proof.
  split; [reflexivity|]. split; [reflexivity|]. discriminate.
Qed.

Lemma volume_filter_keeps_liquid_pairs_witness :
  handle_volume (serve (PyDict (response illiquid_pairs))) home_token true =
    {| events := [Fetch (fetch_url home_token);
                  Reply "No valid LP pairs with liquidity found." false];
       raised := None |}.
Proof.
  apply (volume_filter_keeps_liquid_pairs (serve (PyDict (response illiquid_pairs)))
           home_token true (response illiquid_pairs) illiquid_pairs).
  - reflexivity.
  - reflexivity.
  - discriminate.
  - vm_compute. reflexivity.
Defined.

(** ** The volume report *)

Lemma nth_error_number_from {A B : Type} (f : nat -> A -> B) (l : list A) :
  forall (i n : nat) (a : A),
    nth_error l n = Some a -> nth_error (number_from f i l) n = Some (f (i + n) a).
Proof.
  induction l as [|x l IH]; intros i [|n] a H; simpl in *; try discriminate.
  - injection H as <-. now rewrite Nat.add_0_r.
  - rewrite (IH (S i) n a H). f_equal. f_equal. lia.
Qed.

Lemma number_from_length {A B : Type} (f : nat -> A -> B) (l : list A) (i : nat) :
  List.length (number_from f i l) = List.length l.
Proof.
  revert i. induction l as [|x l IH]; intros i; simpl; [reflexivity|]. now rewrite IH.
Qed.

Lemma icon_for_later (i : nat) : 3 <= i -> icon_for i = "💰".
Proof.
  intros H. do 3 (destruct i as [|i]; [lia|]). reflexivity.
Qed.

Section VolumeReport.

Context {rt : PyRuntime}.

Variable http_get_json : string -> string + pyobj.

Lemma read_entry_vol (p : pyobj) (e : entry) : read_entry p = inr e -> e_vol e = volume_key p.
Proof.
  unfold read_entry.
  destruct (token_symbol "baseToken" p); [discriminate|]. simpl.
  destruct (token_symbol "quoteToken" p); [discriminate|]. simpl.
  destruct (dex_id p); [discriminate|]. simpl.
  destruct (liquidity_usd p); [discriminate|]. simpl.
  intros H. injection H as <-. reflexivity.
Qed.

Lemma read_entries_vol (l : list pyobj) (es : list entry) :
  mapM read_entry l = inr es -> map e_vol es = map volume_key l.
Proof.
  revert es. induction l as [|p l IH]; simpl; intros es H.
  - injection H as <-. reflexivity.
  - destruct (read_entry p) as [x|e] eqn:Ep; [discriminate|]. simpl in H.
    destruct (mapM read_entry l) as [x|es']; [discriminate|]. simpl in H.
    injection H as <-. simpl. now rewrite (read_entry_vol p e Ep), (IH es').
Qed.



End VolumeReport.

(** ** Letter case and padding of ASCII strings *)

Definition is_upper_letter (c : ascii) : bool :=
  let n := nat_of_ascii c in ((65 <=? n) && (n <=? 90))%nat.

Definition is_lower_letter (c : ascii) : bool :=
  let n := nat_of_ascii c in ((97 <=? n) && (n <=? 122))%nat.

(** The same character, or the capital and the small form of one letter. *)
Definition same_letter (a b : ascii) : bool :=
  Ascii.eqb a b
  || (is_upper_letter a && (nat_of_ascii b =? nat_of_ascii a + 32)%nat)
  || (is_upper_letter b && (nat_of_ascii a =? nat_of_ascii b + 32)%nat).

(** Equal up to the case of the ASCII letters. *)
Fixpoint caseless (s t : string) : bool :=
  match s, t with
  | EmptyString, EmptyString => true
  | String a s', String b t' => same_letter a b && caseless s' t'
  | _, _ => false
  end.

Fixpoint all_chars (P : ascii -> bool) (s : string) : bool :=
  match s with
  | EmptyString => true
  | String c s' => P c && all_chars P s'
  end.

(** [s] is [core] between two runs of ASCII whitespace. *)
Definition padded (s core : string) : Prop :=
  exists l r, s = (l ++ core ++ r)%string
              /\ all_chars is_space l = true /\ all_chars is_space r = true.

Lemma ascii_eq_nat (a b : ascii) : a = b <-> nat_of_ascii a = nat_of_ascii b.
Proof.
  split; [now intros ->|]. intros H.
  rewrite <- (ascii_nat_embedding a), <- (ascii_nat_embedding b). now rewrite H.
Qed.

Lemma upper_char_same (c u : ascii) :
  is_upper_letter u = true -> (upper_char c = u <-> same_letter c u = true).
Proof.
  unfold upper_char, same_letter, is_upper_letter.
  rewrite !orb_true_iff, !andb_true_iff, Ascii.eqb_eq, !Nat.eqb_eq, !Nat.leb_le.
  intros Hu. pose proof (nat_ascii_bounded c) as Hc.
  destruct ((97 <=? nat_of_ascii c) && (nat_of_ascii c <=? 122))%nat eqn:E.
  - apply andb_true_iff in E. rewrite !Nat.leb_le in E.
    rewrite ascii_eq_nat, nat_ascii_embedding by lia.
    rewrite ascii_eq_nat. lia.
  - apply andb_false_iff in E. rewrite !Nat.leb_gt in E.
    rewrite ascii_eq_nat. lia.
Qed.

Lemma lower_char_same (c l : ascii) :
  is_lower_letter l = true -> (lower_char c = l <-> same_letter c l = true).
Proof.
  unfold lower_char, same_letter, is_lower_letter, is_upper_letter.
  rewrite !orb_true_iff, !andb_true_iff, Ascii.eqb_eq, !Nat.eqb_eq, !Nat.leb_le.
  intros Hl. pose proof (nat_ascii_bounded c) as Hc.
  destruct ((65 <=? nat_of_ascii c) && (nat_of_ascii c <=? 90))%nat eqn:E.
  - apply andb_true_iff in E. rewrite !Nat.leb_le in E.
    rewrite ascii_eq_nat, nat_ascii_embedding by lia.
    rewrite ascii_eq_nat. lia.
  - apply andb_false_iff in E. rewrite !Nat.leb_gt in E.
    rewrite ascii_eq_nat. lia.
Qed.

Lemma ascii_upper_caseless (s t : string) :
  all_chars is_upper_letter t = true -> (ascii_upper s = t <-> caseless s t = true).
Proof.
  unfold ascii_upper. revert t.
  induction s as [|c s IH]; intros [|u t]; cbn [map_string caseless all_chars]; intros Ht;
    try (split; [discriminate | discriminate]); [tauto|].
  apply andb_true_iff in Ht. destruct Ht as [Hu Ht].
  rewrite andb_true_iff, <- (IH t Ht), <- (upper_char_same c u Hu).
  split; [intros H; injection H; auto | intros [-> ->]; reflexivity].
Qed.

Lemma ascii_lower_caseless (s t : string) :
  all_chars is_lower_letter t = true -> (ascii_lower s = t <-> caseless s t = true).
Proof.
  unfold ascii_lower. revert t.
  induction s as [|c s IH]; intros [|u t]; cbn [map_string caseless all_chars]; intros Ht;
    try (split; [discriminate | discriminate]); [tauto|].
  apply andb_true_iff in Ht. destruct Ht as [Hu Ht].
  rewrite andb_true_iff, <- (IH t Ht), <- (lower_char_same c u Hu).
  split; [intros H; injection H; auto | intros [-> ->]; reflexivity].
Qed.

(** A string that is a word of letters up to case holds no whitespace. *)
Lemma same_letter_no_space (c l : ascii) :
  is_lower_letter l = true -> same_letter c l = true -> is_space c = false.
Proof.
  unfold same_letter, is_lower_letter, is_upper_letter, is_space.
  rewrite !orb_true_iff, !andb_true_iff, Ascii.eqb_eq, !Nat.eqb_eq, !Nat.leb_le.
  intros Hl H. apply orb_false_iff. rewrite !andb_false_iff, !Nat.leb_gt.
  destruct H as [[H|H]|H].
  - subst c. lia.
  - lia.
  - lia.
Qed.

Lemma caseless_no_space (s t : string) :
  all_chars is_lower_letter t = true -> caseless s t = true ->
  all_chars (fun c => negb (is_space c)) s = true.
Proof.
  revert t.
  induction s as [|c s IH]; intros [|l t]; cbn [caseless all_chars]; try discriminate;
    [auto|].
  intros Ht H. apply andb_true_iff in Ht, H. destruct Ht as [Hl Ht], H as [Hc H].
  rewrite (same_letter_no_space c l Hl Hc). simpl. exact (IH t Ht H).
Qed.

Lemma string_app_assoc (a b c : string) : ((a ++ b) ++ c = a ++ (b ++ c))%string.
Proof.
  induction a as [|ch a IH]; simpl; [reflexivity|]. now rewrite IH.
Qed.

Lemma string_app_nil_r (a : string) : (a ++ "")%string = a.
Proof. induction a as [|ch a IH]; simpl; [reflexivity|]. now rewrite IH. Qed.

Lemma lstrip_by_split (space : ascii -> bool) (s : string) :
  exists l, s = (l ++ lstrip_by space s)%string /\ all_chars space l = true.
Proof.
  induction s as [|c s [l [Hs Hl]]]; simpl.
  - now exists "".
  - destruct (space c) eqn:E.
    + exists (String c l). simpl. rewrite E, Hl. split; [now rewrite <- Hs | reflexivity].
    + now exists "".
Qed.

Lemma rstrip_by_split (space : ascii -> bool) (s : string) :
  exists r, s = (rstrip_by space s ++ r)%string /\ all_chars space r = true.
Proof.
  induction s as [|c s [r [Hs Hr]]]; simpl.
  - now exists "".
  - destruct (rstrip_by space s) as [|c' s'] eqn:E.
    + simpl in Hs. destruct (space c) eqn:Ec.
      * exists (String c r). simpl. rewrite Ec, Hr. split; [now rewrite <- Hs | reflexivity].
      * exists r. simpl. split; [now rewrite <- Hs | exact Hr].
    + exists r. split; [|exact Hr]. simpl. simpl in Hs. now rewrite <- Hs.
Qed.

Lemma strip_by_split (space : ascii -> bool) (s : string) :
  exists l r, s = (l ++ strip_by space s ++ r)%string
              /\ all_chars space l = true /\ all_chars space r = true.
Proof.
  destruct (lstrip_by_split space s) as [l [Hs Hl]].
  destruct (rstrip_by_split space (lstrip_by space s)) as [r [Hs' Hr]].
  exists l, r. unfold strip_by. split; [|auto]. rewrite <- Hs'. exact Hs.
Qed.

Lemma rstrip_by_spaces (space : ascii -> bool) (r : string) :
  all_chars space r = true -> rstrip_by space r = "".
Proof.
  induction r as [|c r IH]; simpl; [reflexivity|].
  intros H. apply andb_true_iff in H. destruct H as [Hc Hr].
  now rewrite (IH Hr), Hc.
Qed.

Lemma rstrip_by_app (space : ascii -> bool) (s r : string) :
  all_chars space r = true -> rstrip_by space (s ++ r) = rstrip_by space s.
Proof.
  intros Hr. induction s as [|c s IH]; simpl.
  - now apply rstrip_by_spaces.
  - now rewrite IH.
Qed.

Lemma rstrip_by_fixed (space : ascii -> bool) (s : string) :
  all_chars (fun c => negb (space c)) s = true -> rstrip_by space s = s.
Proof.
  induction s as [|c s IH]; simpl; [reflexivity|].
  intros H. apply andb_true_iff in H. destruct H as [Hc Hs].
  rewrite (IH Hs). destruct s; [|reflexivity].
  apply negb_true_iff in Hc. now rewrite Hc.
Qed.

Lemma lstrip_by_app (space : ascii -> bool) (l s : string) :
  all_chars space l = true -> lstrip_by space (l ++ s) = lstrip_by space s.
Proof.
  induction l as [|c l IH]; simpl; [reflexivity|].
  intros H. apply andb_true_iff in H. destruct H as [Hc Hl]. now rewrite Hc, IH.
Qed.

(** Padding is what [strip] removes: a core without whitespace is found
    again, whatever whitespace surrounds it. *)
Lemma strip_by_padded (space : ascii -> bool) (l core r : string) :
  all_chars space l = true -> all_chars space r = true ->
  all_chars (fun c => negb (space c)) core = true ->
  strip_by space (l ++ core ++ r) = core.
Proof.
  intros Hl Hr Hcore. unfold strip_by. rewrite (lstrip_by_app space l _ Hl).
  destruct core as [|c core].
  - simpl. apply rstrip_by_spaces.
    clear - Hr. induction r as [|c r IH]; simpl; [reflexivity|].
    simpl in Hr. apply andb_true_iff in Hr. destruct Hr as [Hc Hr].
    rewrite Hc. exact (IH Hr).
  - simpl in Hcore. apply andb_true_iff in Hcore. destruct Hcore as [Hc Hcore].
    simpl. apply negb_true_iff in Hc. rewrite Hc.
    change (String c (core ++ r)) with (String c core ++ r)%string.
    rewrite (rstrip_by_app space _ r Hr). apply rstrip_by_fixed.
    simpl. now rewrite Hc, Hcore.
Qed.

Lemma is_ascii_app (a b : string) : is_ascii (a ++ b) = is_ascii a && is_ascii b.
Proof.
  induction a as [|c a IH]; simpl; [reflexivity|]. now rewrite IH, andb_assoc.
Qed.

Lemma is_ascii_strip (s : string) : is_ascii s = true -> is_ascii (ascii_strip s) = true.
Proof.
  destruct (strip_by_split is_space s) as [l [r [Hs _]]]. fold (ascii_strip s) in Hs.
  intros H. rewrite Hs, !is_ascii_app in H.
  apply andb_true_iff in H. destruct H as [_ H].
  apply andb_true_iff in H. tauto.
Qed.

(** The exchange-id test on an ASCII string: the word, in any letter case,
    between ASCII whitespace. *)
Lemma ascii_lower_strip_word (s word : string) :
  all_chars is_lower_letter word = true ->
  (ascii_lower (ascii_strip s) = word <->
   exists core, padded s core /\ caseless core word = true).
Proof.
  intros Hw. split.
  - intros H. exists (ascii_strip s). split.
    + destruct (strip_by_split is_space s) as [l [r H']]. now exists l, r.
    + now apply ascii_lower_caseless.
  - intros [core [[l [r [-> [Hl Hr]]]] Hc]].
    unfold ascii_strip.
    rewrite (strip_by_padded is_space l core r Hl Hr (caseless_no_space core word Hw Hc)).
    now apply ascii_lower_caseless.
Qed.

Section VolumeSummary.

Context {rt : PyRuntime}.

(** [in_summary] is the handler's test: the upper-cased symbols are SOL and
    DRIP, in either order, and the lower-cased exchange id is raydium. *)
Lemma in_summary_spec (e : entry) :
  in_summary e = true <->
  ((upper (e_base e) = "SOL" /\ upper (e_quote e) = "DRIP")
   \/ (upper (e_base e) = "DRIP" /\ upper (e_quote e) = "SOL"))
  /\ lower (strip (e_dex e)) = "raydium".
Proof.
  unfold in_summary, is_sol_drip_raydium, set2_eqb.
  rewrite !andb_true_iff, !orb_true_iff, !String.eqb_eq.
  split.
  - intros [[[[Hb Hq] Hs] Hd] Hx]. split; [|exact Hx].
    destruct Hb as [Hb|Hb], Hq as [Hq|Hq]; try tauto.
    + destruct Hd as [Hd|Hd]; congruence.
    + destruct Hs as [Hs|Hs]; congruence.
  - intros [[[Hb Hq]|[Hb Hq]] Hx]; rewrite Hb, Hq; tauto.
Qed.

(** On ASCII names the test reads: the symbols are SOL and DRIP in any
    letter case, one each, and the exchange id is raydium in any letter
    case, possibly between ASCII whitespace. *)
Lemma in_summary_ascii (e : entry) :
  is_ascii (e_base e) = true -> is_ascii (e_quote e) = true -> is_ascii (e_dex e) = true ->
  (in_summary e = true <->
   ((caseless (e_base e) "SOL" = true /\ caseless (e_quote e) "DRIP" = true)
    \/ (caseless (e_base e) "DRIP" = true /\ caseless (e_quote e) "SOL" = true))
   /\ exists core, padded (e_dex e) core /\ caseless core "raydium" = true).
Proof.
  intros Hb Hq Hx. rewrite in_summary_spec.
  rewrite (upper_on_ascii _ Hb), (upper_on_ascii _ Hq), (strip_on_ascii _ Hx).
  rewrite (lower_on_ascii _ (is_ascii_strip _ Hx)).
  rewrite (ascii_upper_caseless (e_base e) "SOL" eq_refl).
  rewrite (ascii_upper_caseless (e_base e) "DRIP" eq_refl).
  rewrite (ascii_upper_caseless (e_quote e) "SOL" eq_refl).
  rewrite (ascii_upper_caseless (e_quote e) "DRIP" eq_refl).
  rewrite (ascii_lower_strip_word (e_dex e) "raydium" eq_refl).
  reflexivity.
Qed.

(** C5: with the summary on, a report that is sent ends with the summary
    lines, whose subtotal is the running sum of the volumes of exactly the
    rendered pairs that pass the SOL/DRIP-on-raydium test, and whose "All
    others combined" figure is the total of all rendered volumes minus that
    subtotal.  The test compares the symbols after Python's [upper] with
    SOL and DRIP, in either order, and the exchange id after [strip] and
    [lower] with raydium; for ASCII names this is case-insensitive
    equality: the symbols are SOL and DRIP in any letter case, one each,
    and the exchange id is raydium in any letter case, possibly between
    ASCII whitespace. *)
Theorem summary_subtotal_and_others (d : list (string * pyobj)) (ps : list pyobj)
    (text : string) :
  lookup "pairs" d = Some (PyList ps) ->
  volume_report (PyDict d) true = inr (text, true) ->
  exists es,
    mapM read_entry (volume_ranking (filter_pairs ps)) = inr es
    /\ (forall e, in_summary e = true <->
          ((upper (e_base e) = "SOL" /\ upper (e_quote e) = "DRIP")
           \/ (upper (e_base e) = "DRIP" /\ upper (e_quote e) = "SOL"))
          /\ lower (strip (e_dex e)) = "raydium")
    /\ (forall e,
          is_ascii (e_base e) = true -> is_ascii (e_quote e) = true ->
          is_ascii (e_dex e) = true ->
          (in_summary e = true <->
           ((caseless (e_base e) "SOL" = true /\ caseless (e_quote e) "DRIP" = true)
            \/ (caseless (e_base e) "DRIP" = true /\ caseless (e_quote e) "SOL" = true))
           /\ exists core, padded (e_dex e) core /\ caseless core "raydium" = true))
    /\ let total := sum_floats fzero (map e_vol es) in
       let subtotal := sum_floats fzero (map e_vol (filter in_summary es)) in
       total_volume (rendered true es) = total
       /\ sol_ray_vol (rendered true es) = subtotal
       /\ text =
          join nl
            (volume_header (List.length es) :: number_from entry_line 0 es
             ++ [ "📊 Summary (24H Volume):";
                  ("- SOL/DRIP (raydium): *" ++ format_usd (PyFloat subtotal) ++ "*")%string;
                  ("- All others combined: *"
                   ++ format_usd (PyFloat (total - subtotal)%float) ++ "*")%string ]).
Proof.
  intros Hd Hrep. apply (volume_report_markdown d ps true text Hd) in Hrep.
  destruct Hrep as [_ [_ [es [Hes Htext]]]]. exists es.
  split; [exact Hes|]. split; [exact in_summary_spec|]. split; [exact in_summary_ascii|].
  repeat split. exact Htext.
Qed.

End VolumeSummary.

Section RankIcons.

Context {rt : PyRuntime}.

(** The icon of a position, decided by the index alone. *)
Definition rank_icon (i : nat) (icon : string) : Prop :=
  (i = 0 /\ icon = "🥇") \/ (i = 1 /\ icon = "🥈") \/ (i = 2 /\ icon = "🥉")
  \/ (3 <= i /\ icon = "💰").

Lemma rank_icon_for (i : nat) : rank_icon i (icon_for i).
Proof.
  unfold rank_icon. destruct i as [|[|[|i]]]; simpl; auto.
  right. right. right. split; [lia | reflexivity].
Qed.

(** C6: the text of a report that is sent is its header line followed by
    one block per ranked entry (and, in the volume report, the summary
    lines if asked for), and the block at index [i] begins with the icon of
    position [i], before the entry's own names and figures: 🥇 at index 0,
    🥈 at 1, 🥉 at 2 and 💰 from 3 on, whatever the entry's values are. *)
Theorem rank_icon_by_position (d : list (string * pyobj)) (ps : list pyobj)
    (show_summary : bool) (text : string) :
  lookup "pairs" d = Some (PyList ps) ->
  (volume_report (PyDict d) show_summary = inr (text, true) ->
   exists es blocks summary,
     mapM read_entry (volume_ranking (filter_pairs ps)) = inr es
     /\ text = join nl (volume_header (List.length es) :: blocks ++ summary)
     /\ (show_summary = false -> summary = [])
     /\ List.length blocks = List.length es
     /\ forall i e, nth_error es i = Some e ->
          exists icon,
            rank_icon i icon
            /\ nth_error blocks i =
               Some (icon ++ " " ++ e_base e ++ "/" ++ e_quote e ++ " (" ++ e_dex e ++ ") -"
                     ++ nl
                     ++ "Liquidity: *" ++ format_usd (PyFloat (e_liquidity e)) ++ "* " ++ nl
                     ++ "24H Volume: *" ++ format_usd (PyFloat (e_vol e)) ++ "*" ++ nl
                     ++ nl)%string)
  /\ (ratio_report (PyDict d) = inr (text, true) ->
      exists rows blocks,
        mapM read_row (ratio_ranking ps) = inr rows
        /\ text = join nl (ratio_header (List.length rows) :: blocks)
        /\ List.length blocks = List.length rows
        /\ forall i r, nth_error rows i = Some r ->
             exists icon,
               rank_icon i icon
               /\ nth_error blocks i =
                  Some (icon ++ " " ++ r_base r ++ "/" ++ r_quote r ++ " (" ++ r_dex r ++ ") -"
                        ++ nl
                        ++ "Liquidity: *" ++ format_usd (PyFloat (r_liquidity r)) ++ "* "
                        ++ nl
                        ++ "24H Volume: *" ++ format_usd (PyFloat (r_vol r)) ++ "* " ++ nl
                        ++ "Ratio: *" ++ format_pct (PyFloat (r_ratio r)) ++ "*" ++ nl
                        ++ nl)%string).
Proof.
  intros Hd. split.
  - intros Hrep. apply (volume_report_markdown d ps show_summary text Hd) in Hrep.
    destruct Hrep as [_ [_ [es [Hes Htext]]]].
    exists es, (number_from entry_line 0 es),
      (if show_summary then summary_lines (rendered show_summary es) else []).
    split; [exact Hes|]. split; [exact Htext|]. split; [now intros ->|].
    split; [apply number_from_length|].
    intros i e Hi. exists (icon_for i). split; [apply rank_icon_for|].
    now rewrite (nth_error_number_from entry_line es 0 i e Hi).
  - intros Hrep. apply (ratio_report_markdown d ps text Hd) in Hrep.
    destruct Hrep as [_ [rows [Hrows Htext]]].
    exists rows, (number_from row_line 0 rows).
    split; [exact Hrows|]. split; [exact Htext|]. split; [apply number_from_length|].
    intros i r Hi. exists (icon_for i). split; [apply rank_icon_for|].
    now rewrite (nth_error_number_from row_line rows 0 i r Hi).
Qed.

End RankIcons.

(** The volume of a pair parses to a number (not NaN). *)
Definition volume_is_number {rt : PyRuntime} (p : pyobj) : Prop :=
  exists v, volume_h24 p = inr v /\ PrimFloat.is_nan v = false.

Section VolumeOrder.

Context {rt : PyRuntime}.

Lemma volume_numbers (l : list pyobj) :
  Forall volume_is_number l -> Forall volume_parses l /\ no_nan_key volume_key l.
Proof.
  intros H. split.
  - eapply Forall_impl; [|exact H]. intros p [v [Hv _]]. now exists v.
  - unfold no_nan_key. eapply Forall_impl; [|exact H].
    intros p [v [Hv Hn]]. unfold volume_key. now rewrite Hv.
Qed.

(** C1 (amended): when some pair passes the liquidity filter and the volume
    of every filtered pair parses to a number, the handler ranks the
    filtered pairs in non-increasing order of 24-hour volume (every pair's
    volume is at least that of every later pair), pairs of equal volume in
    their input order, and renders them in that order. *)
Theorem volume_report_ranked_by_volume (d : list (string * pyobj)) (ps : list pyobj)
    (show_summary : bool) :
  lookup "pairs" d = Some (PyList ps) ->
  filter_pairs ps <> [] ->
  Forall volume_is_number (filter_pairs ps) ->
  let pairs_sorted := ranked volume_key (filter_pairs ps) in
  sorted_by_key volume_h24 (filter_pairs ps) = inr pairs_sorted
  /\ StronglySorted (ranks_before volume_key) pairs_sorted
  /\ (forall v, keyed volume_key v pairs_sorted = keyed volume_key v (filter_pairs ps))
  /\ volume_report (PyDict d) show_summary =
     (es <- mapM read_entry pairs_sorted ;;
      ret (volume_text show_summary (rendered show_summary es), true))
  /\ (forall es, mapM read_entry pairs_sorted = inr es ->
                 map e_vol es = map volume_key pairs_sorted).
Proof.
  intros Hd Hne Hnum pairs_sorted.
  destruct (volume_numbers _ Hnum) as [Hparse Hnan].
  assert (Hsorted : sorted_by_key volume_h24 (filter_pairs ps) = inr pairs_sorted).
  { rewrite (sorted_by_volume _ Hparse). f_equal. now apply volume_ranking_ranked. }
  split; [exact Hsorted|]. split; [now apply ranked_strongly_sorted|].
  split; [intros v; apply ranked_stable|]. split.
  - assert (Hps : ps <> []) by (intros ->; now apply Hne).
    rewrite (volume_report_pairs d ps show_summary Hd Hps).
    destruct (filter_pairs ps) as [|q qs] eqn:Ef; [now elim Hne|].
    rewrite <- Ef. rewrite <- Ef in Hsorted. now rewrite Hsorted.
  - intros es. apply read_entries_vol.
Qed.

(** The sort key is evaluated outside any [try]: as soon as one filtered
    pair has a volume that does not parse, the handler ends with the
    exception, after the fetch and before any reply. *)
Lemma unparseable_volume_raises (http_get_json : string -> string + pyobj)
    (contract_address : string) (show_summary : bool)
    (d : list (string * pyobj)) (ps : list pyobj) (p : pyobj) (e : pyexn) :
  http_get_json (fetch_url contract_address) = inr (PyDict d) ->
  lookup "pairs" d = Some (PyList ps) ->
  In p (filter_pairs ps) -> volume_h24 p = inl e ->
  exists e',
    handle_volume http_get_json contract_address show_summary =
    {| events := [Fetch (fetch_url contract_address)]; raised := Some e' |}.
Proof.
  intros Hfetch Hd Hin Hp.
  destruct (sorted_by_volume_raises (filter_pairs ps) p e Hin Hp) as [e' He'].
  exists e'. unfold handle_volume, run_report, fetch_token_endpoint. rewrite Hfetch.
  assert (Hps : ps <> []) by (intros ->; exact Hin).
  rewrite (volume_report_pairs d ps show_summary Hd Hps).
  destruct (filter_pairs ps) as [|q qs] eqn:Ef; [now elim Hin|].
  now rewrite He'.
Qed.

End VolumeOrder.

(** ** The ratio report *)

Section RatioOrder.

Context {rt : PyRuntime}.

Lemma ratio_ranking_perm (ps : list pyobj) :
  Permutation (collect_ratios ps) (ratio_ranking ps).
Proof. apply sorted_reverse_perm. Qed.

Lemma ratio_ranking_In (ps : list pyobj) (x : ratio_entry) :
  In x (ratio_ranking ps) <-> exists p, In p ps /\ ratio_eligible p = true /\ x = entry_of p.
Proof.
  split.
  - intros H. apply (Permutation_in _ (Permutation_sym (ratio_ranking_perm ps))) in H.
    rewrite collect_ratios_spec in H. apply in_map_iff in H.
    destruct H as [p [<- Hp]]. apply filter_In in Hp. exists p. tauto.
  - intros [p [Hin [He ->]]]. apply (Permutation_in _ (ratio_ranking_perm ps)).
    rewrite collect_ratios_spec. apply in_map. apply filter_In. tauto.
Qed.

Lemma entry_of_eligible (p : pyobj) (l v : float) :
  liquidity_usd p = inr l -> volume_h24 p = inr v ->
  entry_of p = ((v / l)%float, (l, v, p)).
Proof.
  intros Hl Hv. unfold entry_of, filter_liquidity, volume_key. now rewrite Hl, Hv.
Qed.

(** C2 (amended): the ranking of [handle_ratio] holds a pair exactly when
    its liquidity and its 24-hour volume both parse and are both above 0,
    each with the key volume / liquidity; and when no such key is NaN the
    ranking is in non-increasing order of that key (every entry's ratio is
    at least that of every later entry), entries of equal ratio in their
    input order, and the report renders the entries in ranking order. *)
Theorem ratio_report_ranked_by_ratio (d : list (string * pyobj)) (ps : list pyobj) :
  (forall p, In p (map entry_pair (ratio_ranking ps)) <->
             In p ps /\ exists l v, liquidity_usd p = inr l /\ volume_h24 p = inr v /\
                                    gt0 l = true /\ gt0 v = true)
  /\ map entry_pair (collect_ratios ps) = filter ratio_eligible ps
  /\ (forall x, In x (ratio_ranking ps) ->
        exists l v, liquidity_usd (entry_pair x) = inr l /\ volume_h24 (entry_pair x) = inr v
                    /\ x = ((v / l)%float, (l, v, entry_pair x)))
  /\ (Forall key_ok (collect_ratios ps) ->
      ratio_ranking ps = stable_sort_desc (collect_ratios ps)
      /\ StronglySorted desc (ratio_ranking ps)
      /\ (forall v, with_key v (ratio_ranking ps) = with_key v (collect_ratios ps)))
  /\ (lookup "pairs" d = Some (PyList ps) -> collect_ratios ps <> [] ->
      ratio_report (PyDict d) =
      (rows <- mapM read_row (ratio_ranking ps) ;; ret (ratio_text rows, true))).
Proof.
  split; [|split; [|split; [|split]]].
  - intros p. rewrite in_map_iff. split.
    + intros [x [<- Hx]]. apply ratio_ranking_In in Hx. destruct Hx as [q [Hin [He ->]]].
      unfold entry_pair, entry_of. simpl. split; [exact Hin|].
      now apply ratio_eligible_spec.
    + intros [Hin He]. apply ratio_eligible_spec in He.
      exists (entry_of p). split; [reflexivity|]. apply ratio_ranking_In. now exists p.
  - apply collect_ratios_pairs.
  - intros x Hx. apply ratio_ranking_In in Hx. destruct Hx as [p [_ [He ->]]].
    apply ratio_eligible_spec in He. destruct He as [l [v [Hl [Hv _]]]].
    exists l, v. unfold entry_pair at 1 2. simpl.
    rewrite (entry_of_eligible p l v Hl Hv). auto.
  - intros Hok.
    assert (E : ratio_ranking ps = stable_sort_desc (collect_ratios ps))
      by (now apply sorted_reverse_stable).
    split; [exact E|]. rewrite E. split.
    + now apply stable_sort_desc_strongly_sorted.
    + intros v. apply stable_sort_desc_stable.
  - intros Hd Hne.
    assert (Hps : ps <> []) by (intros ->; now apply Hne).
    rewrite (ratio_report_pairs d ps Hd Hps).
    destruct (collect_ratios ps); [now elim Hne | reflexivity].
Qed.

End RatioOrder.

(** * Concrete runs, on the reference runtime *)

(** The specification's example: DRIP/SOL on raydium (liquidity 10000,
    volume 5000) and DRIP/USDC on orca (liquidity 2000, volume 8000). *)
Definition spec_pairs : list pyobj :=
  [ sample_pair "DRIP" "SOL" "raydium" (PyInt 10000) (PyInt 5000);
    sample_pair "DRIP" "USDC" "orca" (PyInt 2000) (PyInt 8000) ].

(** A pair whose volume is NaN (the JSON token [NaN], which [json] reads),
    before a pair with volume 5000. *)
Definition nan_pairs : list pyobj :=
  [ sample_pair "DRIP" "USDC" "orca" (PyInt 2000) (PyFloat nan);
    sample_pair "DRIP" "SOL" "raydium" (PyInt 10000) (PyInt 5000) ].

(** A pair whose liquidity and volume both overflow a double (the JSON
    number [1e999] reads as infinity), before a pair with ratio 0.5. *)
Definition inf_pairs : list pyobj :=
  [ sample_pair "DRIP" "USDC" "orca" (PyFloat infinity) (PyFloat infinity);
    sample_pair "DRIP" "SOL" "raydium" (PyInt 10000) (PyInt 5000) ].

(** A pair with liquidity whose volume is not a number. *)
Definition bad_volume_pairs : list pyobj :=
  [ sample_pair "DRIP" "SOL" "raydium" (PyInt 10000) (PyStr "abc") ].

(** The specification's example, run: the volume report ranks DRIP/USDC
    first and its summary shows 5000 and 8000. *)
Example spec_example_volume :
  handle_volume (serve (PyDict (response spec_pairs))) home_token true =
  {| events :=
       [ Fetch (fetch_url home_token);
         Reply (join nl
                  [ volume_header 2;
                    volume_line "🥇" "DRIP" "USDC" "orca" "$2,000.00" "$8,000.00";
                    volume_line "🥈" "DRIP" "SOL" "raydium" "$10,000.00" "$5,000.00";
                    "📊 Summary (24H Volume):";
                    "- SOL/DRIP (raydium): *$5,000.00*";
                    "- All others combined: *$8,000.00*" ]) true ];
     raised := None |}.
Proof. vm_compute. reflexivity. Qed.

(** ... and the ratio report ranks DRIP/USDC (ratio 4) before DRIP/SOL
    (ratio 0.5). *)
Example spec_example_ratio :
  handle_ratio (serve (PyDict (response spec_pairs))) home_token =
  {| events :=
       [ Fetch (fetch_url home_token);
         Reply (join nl
                  [ ratio_header 2;
                    ratio_line "🥇" "DRIP" "USDC" "orca" "$2,000.00" "$8,000.00" "400.00%";
                    ratio_line "🥈" "DRIP" "SOL" "raydium" "$10,000.00" "$5,000.00" "50.00%" ])
           true ];
     raised := None |}.
Proof. vm_compute. reflexivity. Qed.

(** C4: a volume that does not parse is not read as 0 by [handle_volume].
    On a pair with liquidity 10000 and volume "abc" the key function of the
    sort raises [ValueError], outside any [try]: the handler ends there,
    after the fetch and without a reply.  [handle_ratio] on the same
    response skips the pair and replies. *)
Theorem unparseable_volume_aborts_volume_report :
  handle_volume (serve (PyDict (response bad_volume_pairs))) home_token true =
    {| events := [Fetch (fetch_url home_token)]; raised := Some ValueError |}
  /\ handle_ratio (serve (PyDict (response bad_volume_pairs))) home_token =
    {| events := [Fetch (fetch_url home_token);
                  Reply "No valid pairs with ratio data found." false];
       raised := None |}.
Proof. split; vm_compute; reflexivity. Qed.

Lemma two_permutations {A : Type} (a b : A) (l : list A) :
  Permutation [a; b] l -> l = [a; b] \/ l = [b; a].
Proof.
  intros H. apply Permutation_length_2_inv in H. tauto.
Qed.

(** C1, as stated, fails: with a NaN volume among the filtered pairs the
    handler renders the NaN pair first and the pair with volume 5000
    second, which is not a non-increasing order, and no order of these two
    pairs is. *)
Lemma volume_order_fails_on_nan :
  filter_pairs nan_pairs = nan_pairs
  /\ sorted_by_key volume_h24 (filter_pairs nan_pairs) = inr nan_pairs
  /\ (exists es, mapM read_entry nan_pairs = inr es
                 /\ map e_vol es = [nan; 5000%float]
                 /\ volume_report (PyDict (response nan_pairs)) false =
                    inr (volume_text false (rendered false es), true))
  /\ ~ (exists l, Permutation nan_pairs l /\ Sorted (ranks_before volume_key) l).
Proof.
  split; [vm_compute; reflexivity|]. split; [vm_compute; reflexivity|]. split.
  - eexists. split; [vm_compute; reflexivity|]. split; vm_compute; reflexivity.
  - intros [l [Hp Hs]]. apply two_permutations in Hp.
    destruct Hp as [-> | ->]; inversion Hs as [|? ? _ Hh]; subst;
      inversion Hh as [|? ? Hr]; subst; vm_compute in Hr; discriminate Hr.
Qed.

(** C2, as stated, fails: a pair whose liquidity and volume are both
    infinite is eligible and gets the ratio NaN; the ranking holds it
    before the pair with ratio 0.5, and no order of the two entries is
    non-increasing. *)
Lemma ratio_order_fails_on_infinite_pair :
  map fst (ratio_ranking inf_pairs) = [nan; 0.5%float]
  /\ (exists rows, mapM read_row (ratio_ranking inf_pairs) = inr rows
                   /\ ratio_report (PyDict (response inf_pairs)) = inr (ratio_text rows, true))
  /\ ~ (exists l, Permutation (collect_ratios inf_pairs) l /\ Sorted desc l).
Proof.
  split; [vm_compute; reflexivity|]. split.
  - eexists. split; [vm_compute; reflexivity|]. vm_compute. reflexivity.
  - intros [l [Hp Hs]].
    change (collect_ratios inf_pairs) with
      [entry_of (nth 0 inf_pairs PyNone); entry_of (nth 1 inf_pairs PyNone)] in Hp.
    apply two_permutations in Hp.
    destruct Hp as [-> | ->]; inversion Hs as [|? ? _ Hh]; subst;
      inversion Hh as [|? ? Hr]; subst; vm_compute in Hr; discriminate Hr.
Qed.

(** The text of the volume report on the specification's example. *)
Definition spec_volume_text : string :=
  join nl
    [ volume_header 2;
      volume_line "🥇" "DRIP" "USDC" "orca" "$2,000.00" "$8,000.00";
      volume_line "🥈" "DRIP" "SOL" "raydium" "$10,000.00" "$5,000.00";
      "📊 Summary (24H Volume):";
      "- SOL/DRIP (raydium): *$5,000.00*";
      "- All others combined: *$8,000.00*" ].

Lemma spec_volume_report :
  volume_report (PyDict (response spec_pairs)) true = inr (spec_volume_text, true).
Proof. vm_compute. reflexivity. Qed.

Lemma spec_volumes_are_numbers : Forall volume_is_number (filter_pairs spec_pairs).
Proof.
  repeat constructor; eexists; split; vm_compute; reflexivity.
Qed.

Lemma volume_report_ranked_by_volume_witness :
  StronglySorted (ranks_before volume_key) (ranked volume_key (filter_pairs spec_pairs))
  /\ map volume_key (ranked volume_key (filter_pairs spec_pairs)) = [8000%float; 5000%float].
Proof.
  split.
  - refine (proj1 (proj2 (volume_report_ranked_by_volume
                            (response spec_pairs) spec_pairs true _ _ _))).
    + reflexivity.
    + vm_compute. discriminate.
    + exact spec_volumes_are_numbers.
  - vm_compute. reflexivity.
Defined.

Lemma ratio_report_ranked_by_ratio_witness :
  StronglySorted desc (ratio_ranking spec_pairs)
  /\ map fst (ratio_ranking spec_pairs) = [4%float; 0.5%float].
Proof.
  split.
  - refine (proj1 (proj2 (proj1 (proj2 (proj2 (proj2
              (ratio_report_ranked_by_ratio (response spec_pairs) spec_pairs)))) _))).
    repeat constructor.
  - vm_compute. reflexivity.
Defined.

(** A response whose names are in mixed letter case: the first pair is
    DRIP/SOL on raydium, the third has SOL on both sides. *)
Definition mixed_case_pairs : list pyobj :=
  [ sample_pair "drip" " Sol" " RayDium " (PyInt 10000) (PyInt 5000);
    sample_pair "DRIP" "USDC" "orca" (PyInt 2000) (PyInt 8000);
    sample_pair "SOL" "sol" "raydium" (PyInt 500) (PyInt 70) ].

Definition mixed_case_text : string :=
  match volume_report (PyDict (response mixed_case_pairs)) true with
  | inr (text, _) => text
  | inl _ => ""
  end.

Lemma summary_subtotal_and_others_witness :
  exists es,
    mapM read_entry (volume_ranking (filter_pairs mixed_case_pairs)) = inr es
    /\ map e_base (filter in_summary es) = ["drip"]
    /\ sol_ray_vol (rendered true es) = 5000%float
    /\ (total_volume (rendered true es) - sol_ray_vol (rendered true es))%float = 8070%float.
Proof.
  destruct (summary_subtotal_and_others (response mixed_case_pairs) mixed_case_pairs
              mixed_case_text eq_refl) as [es [Hes _]].
  - vm_compute. reflexivity.
  - exists es. split; [exact Hes|].
    vm_compute in Hes. injection Hes as <-.
    split; [vm_compute; reflexivity|]. split; vm_compute; reflexivity.
Defined.

(** Four pairs, so that a report reaches the fourth position. *)
Definition four_pairs : list pyobj :=
  [ sample_pair "C" "DRIP" "orca" (PyInt 1000) (PyInt 20);
    sample_pair "A" "DRIP" "orca" (PyInt 1000) (PyInt 40);
    sample_pair "D" "DRIP" "orca" (PyInt 1000) (PyInt 10);
    sample_pair "B" "DRIP" "orca" (PyInt 1000) (PyInt 30) ].

Definition four_volume_text : string :=
  match volume_report (PyDict (response four_pairs)) false with
  | inr (text, _) => text
  | inl _ => ""
  end.

Definition four_ratio_text : string :=
  match ratio_report (PyDict (response four_pairs)) with
  | inr (text, _) => text
  | inl _ => ""
  end.

Lemma rank_icon_by_position_witness :
  (exists blocks,
     four_volume_text = join nl (volume_header 4 :: blocks)
     /\ nth_error blocks 0 =
        Some ("🥇 A/DRIP (orca) -" ++ nl ++ "Liquidity: *$1,000.00* " ++ nl
              ++ "24H Volume: *$40.00*" ++ nl ++ nl)%string
     /\ nth_error blocks 3 =
        Some ("💰 D/DRIP (orca) -" ++ nl ++ "Liquidity: *$1,000.00* " ++ nl
              ++ "24H Volume: *$10.00*" ++ nl ++ nl)%string)
  /\ (exists blocks,
        four_ratio_text = join nl (ratio_header 4 :: blocks)
        /\ nth_error blocks 1 =
           Some ("🥈 B/DRIP (orca) -" ++ nl ++ "Liquidity: *$1,000.00* " ++ nl
                 ++ "24H Volume: *$30.00* " ++ nl ++ "Ratio: *3.00%*" ++ nl ++ nl)%string
        /\ nth_error blocks 3 =
           Some ("💰 D/DRIP (orca) -" ++ nl ++ "Liquidity: *$1,000.00* " ++ nl
                 ++ "24H Volume: *$10.00* " ++ nl ++ "Ratio: *1.00%*" ++ nl ++ nl)%string).
Proof.
  split.
  - destruct (proj1 (rank_icon_by_position (response four_pairs) four_pairs false
                       four_volume_text eq_refl))
      as [es [blocks [summary [Hes [Htext [Hsum [_ Hicon]]]]]]].
    { vm_compute. reflexivity. }
    vm_compute in Hes. injection Hes as <-.
    rewrite (Hsum eq_refl), app_nil_r in Htext.
    exists blocks. split; [exact Htext|]. split.
    + destruct (Hicon 0 _ eq_refl) as [icon [Hrank Hblock]].
      destruct Hrank as [[_ ->]|[[H _]|[[H _]|[H _]]]];
        [|discriminate H|discriminate H|inversion H].
      rewrite Hblock. vm_compute. reflexivity.
    + destruct (Hicon 3 _ eq_refl) as [icon [Hrank Hblock]].
      destruct Hrank as [[H _]|[[H _]|[[H _]|[_ ->]]]];
        [discriminate H|discriminate H|discriminate H|].
      rewrite Hblock. vm_compute. reflexivity.
  - destruct (proj2 (rank_icon_by_position (response four_pairs) four_pairs false
                       four_ratio_text eq_refl))
      as [rows [blocks [Hrows [Htext [_ Hicon]]]]].
    { vm_compute. reflexivity. }
    vm_compute in Hrows. injection Hrows as <-.
    exists blocks. split; [exact Htext|]. split.
    + destruct (Hicon 1 _ eq_refl) as [icon [Hrank Hblock]].
      destruct Hrank as [[H _]|[[_ ->]|[[H _]|[H _]]]];
        [discriminate H| |discriminate H|].
      * rewrite Hblock. vm_compute. reflexivity.
      * exfalso. lia.
    + destruct (Hicon 3 _ eq_refl) as [icon [Hrank Hblock]].
      destruct Hrank as [[H _]|[[H _]|[[H _]|[_ ->]]]];
        [discriminate H|discriminate H|discriminate H|].
      rewrite Hblock. vm_compute. reflexivity.
Defined.


(** ** The summary figures *)

(** The volume of a rendered pair is not negative. *)
Definition volume_nonneg (e : entry) : Prop := PrimFloat.leb fzero (e_vol e) = true.

Section SummaryOrder.

Context {rt : PyRuntime}.

(** The two running sums of the loop stay in order: the sum over the
    summary pairs never passes the sum over all pairs. *)
Lemma running_sums_ordered (es : list entry) :
  Forall volume_nonneg es ->
  forall s t : float,
    Binary64.is_nonneg s -> Binary64.is_nonneg t -> PrimFloat.leb s t = true ->
    Binary64.is_nonneg (sum_floats s (map e_vol (filter in_summary es)))
    /\ Binary64.is_nonneg (sum_floats t (map e_vol es))
    /\ PrimFloat.leb (sum_floats s (map e_vol (filter in_summary es)))
         (sum_floats t (map e_vol es)) = true.
Proof.
  induction 1 as [|e es He Hes IH]; intros s t Hs Ht Hst.
  - simpl. auto.
  - cbn [filter map]. unfold sum_floats at 2 4. cbn [fold_left].
    fold (sum_floats (t + e_vol e)%float (map e_vol es)).
    destruct (Binary64.add_fval t (e_vol e) Ht He) as [Ht' _].
    destruct (in_summary e).
    + cbn [map]. unfold sum_floats at 1 2. cbn [fold_left].
      fold (sum_floats (s + e_vol e)%float (map e_vol (filter in_summary es))).
      destruct (Binary64.add_fval s (e_vol e) Hs He) as [Hs' _].
      apply IH; trivial. now apply Binary64.add_le_mono.
    + apply IH; trivial. now apply Binary64.add_le_r.
Qed.

(** C10 (amended): when the volume of every rendered pair is nonnegative,
    the summary subtotal is at most the total volume; and unless the
    subtotal is infinite, the "All others combined" value, total minus
    subtotal, is nonnegative. *)
Theorem others_combined_nonnegative (d : list (string * pyobj)) (ps : list pyobj)
    (text : string) :
  lookup "pairs" d = Some (PyList ps) ->
  volume_report (PyDict d) true = inr (text, true) ->
  exists es,
    mapM read_entry (volume_ranking (filter_pairs ps)) = inr es
    /\ text = volume_text true (rendered true es)
    /\ (Forall volume_nonneg es ->
        let total := total_volume (rendered true es) in
        let subtotal := sol_ray_vol (rendered true es) in
        PrimFloat.leb subtotal total = true
        /\ (PrimFloat.ltb subtotal infinity = true ->
            PrimFloat.leb fzero (total - subtotal)%float = true)).
Proof.
  intros Hd Hrep. apply (volume_report_markdown d ps true text Hd) in Hrep.
  destruct Hrep as [_ [_ [es [Hes Htext]]]]. exists es.
  split; [exact Hes|]. split; [exact Htext|].
  intros Hvol total subtotal.
  assert (Hz : Binary64.is_nonneg fzero) by reflexivity.
  destruct (running_sums_ordered es Hvol fzero fzero Hz Hz eq_refl) as [Hs [Ht Hst]].
  change (sum_floats fzero (map e_vol (filter in_summary es))) with subtotal in Hs, Hst.
  change (sum_floats fzero (map e_vol es)) with total in Ht, Hst.
  split; [exact Hst|]. intros Hfin.
  now apply Binary64.sub_nonneg.
Qed.

End SummaryOrder.

(** Two SOL/DRIP pairs on raydium, each with the volume 1e308 (the double
    nearest to it). *)
Definition overflow_pairs : list pyobj :=
  [ sample_pair "DRIP" "SOL" "raydium" (PyInt 10000) (PyFloat 0x1.1ccf385ebc8ap+1023);
    sample_pair "SOL" "DRIP" "raydium" (PyInt 20000) (PyFloat 0x1.1ccf385ebc8ap+1023) ].

(** C10, as stated, fails: the two volumes are nonnegative and finite, both
    running sums overflow to infinity, and infinity minus infinity is NaN,
    which is not nonnegative. *)
Lemma others_combined_nan_on_overflow :
  exists es,
    mapM read_entry (volume_ranking (filter_pairs overflow_pairs)) = inr es
    /\ volume_report (PyDict (response overflow_pairs)) true =
       inr (volume_text true (rendered true es), true)
    /\ Forall volume_nonneg es
    /\ Forall (fun e => PrimFloat.ltb (e_vol e) infinity = true) es
    /\ total_volume (rendered true es) = infinity
    /\ sol_ray_vol (rendered true es) = infinity
    /\ PrimFloat.leb fzero
         (total_volume (rendered true es) - sol_ray_vol (rendered true es))%float = false.
Proof.
  eexists. split; [vm_compute; reflexivity|].
  split; [vm_compute; reflexivity|].
  split; [repeat constructor|].
  split; [repeat constructor|].
  split; [vm_compute; reflexivity|].
  split; vm_compute; reflexivity.
Qed.

Lemma others_combined_nonnegative_witness :
  exists es,
    mapM read_entry (volume_ranking (filter_pairs spec_pairs)) = inr es
    /\ PrimFloat.leb (sol_ray_vol (rendered true es)) (total_volume (rendered true es)) = true
    /\ PrimFloat.leb fzero
         (total_volume (rendered true es) - sol_ray_vol (rendered true es))%float = true.
Proof.
  destruct (others_combined_nonnegative (response spec_pairs) spec_pairs spec_volume_text
              eq_refl spec_volume_report) as [es [Hes [_ H]]].
  exists es. split; [exact Hes|].
  assert (Hvol : Forall volume_nonneg es).
  { vm_compute in Hes. injection Hes as <-. repeat constructor. }
  destruct (H Hvol) as [H1 H2]. split; [exact H1|]. apply H2.
  vm_compute in Hes. injection Hes as <-. vm_compute. reflexivity.
Defined.

(** * More of the handlers *)

(** ** [start] and the commands [main] registers *)

Definition welcome_text : string :=
  "Welcome! Commands available:" ++ nl
  ++ "/volume → DRIP LP pairs by 24H volume" ++ nl
  ++ "/ratio → DRIP LP pairs by ratio" ++ nl
  ++ "/volume_other <TOKEN_CA> → LP pairs of another token by 24H volume" ++ nl
  ++ "/ratio_other <TOKEN_CA> → LP pairs of another token by ratio".

Definition start : outcome :=
  {| events := [Reply welcome_text false]; raised := None |}.

(** The handler [main] registers for a command name, run on the arguments
    of the message; [None] for a name that has no handler. *)
Definition dispatch {rt : PyRuntime} (http_get_json : string -> string + pyobj)
    (command : string) (args : list string) : option outcome :=
  if String.eqb command "start" then Some start
  else if String.eqb command "volume" then Some (volume http_get_json)
  else if String.eqb command "ratio" then Some (ratio http_get_json)
  else if String.eqb command "volume_other" then Some (volume_other http_get_json args)
  else if String.eqb command "ratio_other" then Some (ratio_other http_get_json args)
  else None.

(** What [main] does with the token it found: without one it prints the
    diagnostic and returns; with one it serves the registered commands. *)
Definition main {rt : PyRuntime} (TELEGRAM_TOKEN : option string)
    (http_get_json : string -> string + pyobj)
  : string + (string -> list string -> option outcome) :=
  match TELEGRAM_TOKEN with
  | None =>
      inl "Error: TELEGRAM_TOKEN not set. Please set TELEGRAM_TOKEN as env var or in .env file."
  | Some _ => inr (dispatch http_get_json)
  end.

(** A run in good order: at most one request, made first and to the token
    endpoint; then exactly one reply, or none if the run raised. *)
Definition orderly (o : outcome) : Prop :=
  (exists a, events o = [Fetch (fetch_url a)] /\ raised o <> None)
  \/ (exists a text markdown,
        events o = [Fetch (fetch_url a); Reply text markdown] /\ raised o = None)
  \/ (exists text markdown, events o = [Reply text markdown] /\ raised o = None).

Section Runs.

Context {rt : PyRuntime}.

Variable http_get_json : string -> string + pyobj.

(** A handler's run, once the service has answered. *)
Lemma run_report_fetched (contract_address : string)
    (report : pyobj -> result (string * bool)) (data : pyobj) :
  http_get_json (fetch_url contract_address) = inr data ->
  run_report http_get_json contract_address report =
  match report data with
  | inl exn => {| events := [Fetch (fetch_url contract_address)]; raised := Some exn |}
  | inr (text, markdown) =>
      {| events := [Fetch (fetch_url contract_address); Reply text markdown];
         raised := None |}
  end.
Proof.
  intros H. unfold run_report, fetch_token_endpoint. now rewrite H.
Qed.

Lemma run_report_orderly (contract_address : string)
    (report : pyobj -> result (string * bool)) :
  orderly (run_report http_get_json contract_address report).
Proof.
  unfold run_report, fetch_token_endpoint.
  destruct (http_get_json (fetch_url contract_address)) as [e|data].
  - right. left. exists contract_address. eexists. eexists. split; reflexivity.
  - destruct (report data) as [exn|[text markdown]]; simpl.
    + left. exists contract_address. split; [reflexivity | discriminate].
    + right. left. exists contract_address, text, markdown. split; reflexivity.
Qed.

(** X1: when the request fails, [handle_volume] and [handle_ratio] reply
    "Error fetching data: " followed by the description of the failure, as
    plain text, and return; nothing is raised and nothing else is sent. *)
Theorem fetch_failure_reply (contract_address : string) (show_summary : bool)
    (description : string) :
  http_get_json (fetch_url contract_address) = inl description ->
  handle_volume http_get_json contract_address show_summary =
    {| events := [Fetch (fetch_url contract_address);
                  Reply ("Error fetching data: " ++ description)%string false];
       raised := None |}
  /\ handle_ratio http_get_json contract_address =
    {| events := [Fetch (fetch_url contract_address);
                  Reply ("Error fetching data: " ++ description)%string false];
       raised := None |}.
Proof.
  intros H. unfold handle_volume, handle_ratio, run_report, fetch_token_endpoint.
  rewrite H. split; reflexivity.
Qed.

(** X2: once [main] serves commands, whatever the command, its arguments
    and the service's answer, the run of a registered command makes at most
    one request, first and to the token endpoint, and then sends exactly one
    reply, unless it raised, in which case it sends none.  [/start] and the
    other-token commands without an argument make no request. *)
Theorem every_run_orderly (TELEGRAM_TOKEN : option string)
    (served : string -> list string -> option outcome)
    (command : string) (args : list string) (o : outcome) :
  main TELEGRAM_TOKEN http_get_json = inr served ->
  served command args = Some o ->
  orderly o
  /\ (command = "start" \/ (args = [] /\ (command = "volume_other" \/ command = "ratio_other")) ->
      forall url, ~ In (Fetch url) (events o)).
Proof.
  intros Hmain H. unfold main in Hmain.
  destruct TELEGRAM_TOKEN as [token|]; [|discriminate Hmain].
  injection Hmain as <-. unfold dispatch in H.
  destruct (String.eqb_spec command "start") as [->|N1].
  { injection H as <-. split.
    - right. right. eexists. eexists. split; reflexivity.
    - intros _ url [E|[]]. discriminate E. }
  destruct (String.eqb_spec command "volume") as [->|N2].
  { injection H as <-. split; [apply run_report_orderly|].
    intros [E|[_ [E|E]]]; discriminate E. }
  destruct (String.eqb_spec command "ratio") as [->|N3].
  { injection H as <-. split; [apply run_report_orderly|].
    intros [E|[_ [E|E]]]; discriminate E. }
  destruct (String.eqb_spec command "volume_other") as [->|N4].
  { injection H as <-. destruct args as [|a rest]; simpl.
    - split; [right; right; eexists; eexists; split; reflexivity|].
      intros _ url [E|[]]. discriminate E.
    - split; [apply run_report_orderly|].
      intros [E|[E _]]; discriminate E. }
  destruct (String.eqb_spec command "ratio_other") as [->|N5]; [|discriminate].
  injection H as <-. destruct args as [|a rest]; simpl.
  - split; [right; right; eexists; eexists; split; reflexivity|].
    intros _ url [E|[]]. discriminate E.
  - split; [apply run_report_orderly|].
    intros [E|[E _]]; discriminate E.
Qed.

End Runs.

(** A service whose every request fails with [description]. *)
Definition failing (description : string) : string -> string + pyobj :=
  fun _ => inl description.

Lemma fetch_failure_reply_witness :
  handle_volume (failing "timed out") home_token true =
    {| events := [Fetch (fetch_url home_token);
                  Reply "Error fetching data: timed out" false];
       raised := None |}
  /\ handle_ratio (failing "timed out") home_token =
    {| events := [Fetch (fetch_url home_token);
                  Reply "Error fetching data: timed out" false];
       raised := None |}.
Proof.
  apply (fetch_failure_reply (failing "timed out") home_token true "timed out").
  reflexivity.
Defined.

Lemma every_run_orderly_witness :
  orderly (volume_other (serve (PyDict (response spec_pairs))) [home_token]).
Proof.
  apply (every_run_orderly (serve (PyDict (response spec_pairs))) (Some "token") _
           "volume_other" [home_token] _ eq_refl eq_refl).
Defined.

(** ** Responses of the wrong shape *)

Definition is_object (data : pyobj) : bool :=
  match data with PyDict _ => true | _ => false end.

(** A JSON number or boolean: what [for p in ...] cannot iterate. *)
Definition is_scalar (v : pyobj) : bool :=
  match v with PyInt _ | PyFloat _ | PyBool _ => true | _ => false end.

(** A non-empty JSON object or string: iterable, but its items are strs. *)
Definition is_keyed_or_text (v : pyobj) : bool :=
  match v with
  | PyDict (_ :: _) => true
  | PyStr (String _ _) => true
  | _ => false
  end.

Definition is_str (v : pyobj) : bool :=
  match v with PyStr _ => true | _ => false end.

Section Shapes.

Context {rt : PyRuntime}.

Variable http_get_json : string -> string + pyobj.

Lemma liquidity_of_str (p : pyobj) : is_str p = true -> liquidity_usd p = inl AttributeError.
Proof. destruct p; try discriminate. reflexivity. Qed.

(** Strs are neither liquid nor eligible. *)
Lemma strs_dropped (ps : list pyobj) :
  forallb is_str ps = true -> filter_pairs ps = [] /\ collect_ratios ps = [].
Proof.
  induction ps as [|p ps IH]; [auto|].
  cbn [forallb]. intros H. apply andb_true_iff in H. destruct H as [Hp Hps].
  destruct (IH Hps) as [IH1 IH2]. split.
  - unfold filter_pairs in *. cbn [filter]. unfold has_liquidity at 1, filter_liquidity.
    now rewrite (liquidity_of_str p Hp), gt0_fzero.
  - cbn [collect_ratios]. now rewrite (liquidity_of_str p Hp).
Qed.

Lemma keyed_or_text_iter (v : pyobj) :
  is_keyed_or_text v = true ->
  truthy v = true /\ exists ps, py_iter v = inr ps /\ ps <> [] /\ forallb is_str ps = true.
Proof.
  destruct v as [| | | |s|l|d]; try discriminate.
  - destruct s as [|c s]; [discriminate|]. intros _. split; [reflexivity|].
    eexists. split; [reflexivity|]. split; [discriminate|].
    simpl. induction (list_ascii_of_string s); simpl; auto.
  - destruct d as [|kv d]; [discriminate|]. intros _. split; [reflexivity|].
    eexists. split; [reflexivity|]. split; [discriminate|].
    simpl. induction d; simpl; auto.
Qed.

(** X3: a response that is not a JSON object makes both handlers end with
    [AttributeError], and a [pairs] field that is a nonzero number or [true]
    makes them end with [TypeError]; in both cases after the request and
    without any reply. *)
Theorem misshapen_response_raises (contract_address : string) (show_summary : bool)
    (data : pyobj) :
  http_get_json (fetch_url contract_address) = inr data ->
  (is_object data = false ->
   handle_volume http_get_json contract_address show_summary =
     {| events := [Fetch (fetch_url contract_address)]; raised := Some AttributeError |}
   /\ handle_ratio http_get_json contract_address =
     {| events := [Fetch (fetch_url contract_address)]; raised := Some AttributeError |})
  /\ (forall d v,
        data = PyDict d -> lookup "pairs" d = Some v ->
        is_scalar v = true -> truthy v = true ->
        handle_volume http_get_json contract_address show_summary =
          {| events := [Fetch (fetch_url contract_address)]; raised := Some TypeError |}
        /\ handle_ratio http_get_json contract_address =
          {| events := [Fetch (fetch_url contract_address)]; raised := Some TypeError |}).
Proof.
  intros Hfetch. unfold handle_volume, handle_ratio.
  rewrite !(run_report_fetched http_get_json contract_address _ data Hfetch). split.
  - intros Hobj. destruct data; try discriminate; split; reflexivity.
  - intros d v -> Hd Hs Ht. unfold volume_report, ratio_report. simpl. rewrite Hd. simpl.
    unfold py_or. rewrite Ht. simpl. rewrite Ht. simpl.
    destruct v; try discriminate; split; reflexivity.
Qed.

(** X4: a [pairs] field that is a non-empty JSON object or string is
    iterated (its keys, its characters); none of these is a pair record,
    so [handle_volume] replies "No valid LP pairs with liquidity found." and
    [handle_ratio] replies "No valid pairs with ratio data found.". *)
Theorem keyed_pairs_get_no_valid_reply (contract_address : string) (show_summary : bool)
    (d : list (string * pyobj)) (v : pyobj) :
  http_get_json (fetch_url contract_address) = inr (PyDict d) ->
  lookup "pairs" d = Some v ->
  is_keyed_or_text v = true ->
  handle_volume http_get_json contract_address show_summary =
    {| events := [Fetch (fetch_url contract_address);
                  Reply "No valid LP pairs with liquidity found." false];
       raised := None |}
  /\ handle_ratio http_get_json contract_address =
    {| events := [Fetch (fetch_url contract_address);
                  Reply "No valid pairs with ratio data found." false];
       raised := None |}.
Proof.
  intros Hfetch Hd Hv. unfold handle_volume, handle_ratio.
  rewrite !(run_report_fetched http_get_json contract_address _ _ Hfetch).
  destruct (keyed_or_text_iter v Hv) as [Ht [ps [Hi [_ Hstr]]]].
  destruct (strs_dropped ps Hstr) as [Hf Hc].
  unfold volume_report, ratio_report. simpl. rewrite Hd. simpl.
  unfold py_or. rewrite Ht. simpl. rewrite Ht. simpl. rewrite Hi. simpl.
  rewrite Hf, Hc. split; reflexivity.
Qed.

Lemma none_eligible (ps : list pyobj) :
  Forall (fun p => ratio_eligible p = false) ps -> collect_ratios ps = [].
Proof.
  intros H. rewrite collect_ratios_spec.
  induction H as [|p ps Hp _ IH]; simpl; [reflexivity|]. now rewrite Hp.
Qed.

(** X5: on a non-empty pairs list in which no pair has both a liquidity and
    a volume that parse to values above 0, [handle_ratio] replies "No valid
    pairs with ratio data found." and returns. *)
Theorem no_ratio_data_reply (contract_address : string)
    (d : list (string * pyobj)) (ps : list pyobj) :
  http_get_json (fetch_url contract_address) = inr (PyDict d) ->
  lookup "pairs" d = Some (PyList ps) -> ps <> [] ->
  (forall p, In p ps ->
     ~ exists l v, liquidity_usd p = inr l /\ volume_h24 p = inr v /\
                   gt0 l = true /\ gt0 v = true) ->
  handle_ratio http_get_json contract_address =
    {| events := [Fetch (fetch_url contract_address);
                  Reply "No valid pairs with ratio data found." false];
       raised := None |}.
Proof.
  intros Hfetch Hd Hps Hnone. unfold handle_ratio.
  rewrite (run_report_fetched http_get_json contract_address _ _ Hfetch).
  rewrite (ratio_report_pairs d ps Hd Hps), none_eligible; [reflexivity|].
  apply Forall_forall. intros p Hp.
  destruct (ratio_eligible p) eqn:E; [|reflexivity].
  elim (Hnone p Hp). now apply ratio_eligible_spec.
Qed.

End Shapes.

Lemma misshapen_response_raises_witness :
  handle_volume (serve (PyList [])) home_token true =
    {| events := [Fetch (fetch_url home_token)]; raised := Some AttributeError |}
  /\ handle_ratio (serve (PyDict [("pairs", PyInt 7)])) home_token =
    {| events := [Fetch (fetch_url home_token)]; raised := Some TypeError |}.
Proof.
  split.
  - apply (proj1 (misshapen_response_raises (serve (PyList [])) home_token true
                    (PyList []) eq_refl) eq_refl).
  - apply (proj2 (misshapen_response_raises (serve (PyDict [("pairs", PyInt 7)]))
                    home_token true _ eq_refl) [("pairs", PyInt 7)] (PyInt 7));
      reflexivity.
Defined.

Lemma keyed_pairs_get_no_valid_reply_witness :
  handle_ratio (serve (PyDict [("pairs", PyStr "none")])) home_token =
    {| events := [Fetch (fetch_url home_token);
                  Reply "No valid pairs with ratio data found." false];
       raised := None |}.
Proof.
  apply (keyed_pairs_get_no_valid_reply (serve (PyDict [("pairs", PyStr "none")]))
           home_token true [("pairs", PyStr "none")] (PyStr "none")); reflexivity.
Defined.

Lemma no_ratio_data_reply_witness :
  handle_ratio (serve (PyDict (response bad_volume_pairs))) home_token =
    {| events := [Fetch (fetch_url home_token);
                  Reply "No valid pairs with ratio data found." false];
       raised := None |}.
Proof.
  apply (no_ratio_data_reply (serve (PyDict (response bad_volume_pairs))) home_token
           (response bad_volume_pairs) bad_volume_pairs); try reflexivity.
  - discriminate.
  - intros p [<-|[]] [l [v [_ [Hv _]]]]. vm_compute in Hv. discriminate Hv.
Defined.

(** ** What can and cannot end a report *)

Lemma mapM_succeeds {A B : Type} (f : A -> result B) (l : list A) :
  Forall (fun a => exists b, f a = inr b) l -> exists bs, mapM f l = inr bs.
Proof.
  induction 1 as [|a l [b Hb] _ [bs IH]]; simpl.
  - now exists [].
  - rewrite Hb, IH. simpl. now exists (b :: bs).
Qed.

Lemma mapM_Forall2 {A B : Type} (f : A -> result B) (l : list A) (bs : list B) :
  mapM f l = inr bs -> Forall2 (fun a b => f a = inr b) l bs.
Proof.
  revert bs. induction l as [|a l IH]; simpl; intros bs H.
  - injection H as <-. constructor.
  - destruct (f a) as [e|b] eqn:Ea; simpl in H; [discriminate|].
    destruct (mapM f l) as [e|bs']; simpl in H; [discriminate|].
    injection H as <-. constructor; [exact Ea | now apply IH].
Qed.

Lemma mapM_raised {A B : Type} (f : A -> result B) (l : list A) (e : pyexn) :
  mapM f l = inl e -> exists a, In a l /\ f a = inl e.
Proof.
  induction l as [|a l IH]; simpl; intros H; [discriminate|].
  destruct (f a) as [e'|b] eqn:Ea; simpl in H.
  - injection H as ->. exists a. auto.
  - destruct (mapM f l) as [e'|bs]; simpl in H; [|discriminate].
    injection H as ->. destruct (IH eq_refl) as [a' [Hin Ha']]. exists a'. auto.
Qed.

(** An optional text field: absent, null or a string. *)
Definition optional_text (field : option pyobj) : bool :=
  match field with
  | None | Some PyNone | Some (PyStr _) => true
  | _ => false
  end.

(** An optional token: absent, or an object whose [symbol] is an optional
    text. *)
Definition optional_token (field : option pyobj) : bool :=
  match field with
  | None => true
  | Some (PyDict token) => optional_text (lookup "symbol" token)
  | _ => false
  end.

(** A record whose naming fields can be read: [baseToken] and [quoteToken]
    are optional tokens and [dexId] is an optional text. *)
Definition names_ok (p : pyobj) : bool :=
  match p with
  | PyDict items =>
      optional_token (lookup "baseToken" items)
      && optional_token (lookup "quoteToken" items)
      && optional_text (lookup "dexId" items)
  | _ => false
  end.

Section Raising.

Context {rt : PyRuntime}.

Variable http_get_json : string -> string + pyobj.

Lemma py_get_raises (obj : pyobj) (key : string) (default : pyobj) (e : pyexn) :
  py_get obj key default = inl e -> e = AttributeError.
Proof.
  destruct obj; simpl; try (intros H; now injection H).
  destruct (lookup key items); discriminate.
Qed.

Lemma py_strip_raises (obj : pyobj) (e : pyexn) : py_strip obj = inl e -> e = AttributeError.
Proof.
  destruct obj; simpl; try (intros H; now injection H). discriminate.
Qed.

Lemma token_symbol_raises (outer : string) (p : pyobj) (e : pyexn) :
  token_symbol outer p = inl e -> e = AttributeError.
Proof.
  unfold token_symbol.
  destruct (py_get p outer (PyDict [])) as [e1|t] eqn:E1; simpl.
  - intros H. injection H as <-. exact (py_get_raises _ _ _ _ E1).
  - destruct (py_get t "symbol" PyNone) as [e2|s] eqn:E2; simpl.
    + intros H. injection H as <-. exact (py_get_raises _ _ _ _ E2).
    + apply py_strip_raises.
Qed.

Lemma dex_id_raises (p : pyobj) (e : pyexn) : dex_id p = inl e -> e = AttributeError.
Proof.
  unfold dex_id.
  destruct (py_get p "dexId" (PyStr "unknown")) as [e1|t] eqn:E1; simpl.
  - intros H. injection H as <-. exact (py_get_raises _ _ _ _ E1).
  - apply py_strip_raises.
Qed.

Lemma read_row_raises (x : ratio_entry) (e : pyexn) :
  read_row x = inl e -> e = AttributeError.
Proof.
  destruct x as [ratio [[l v] p]]. unfold read_row.
  destruct (token_symbol "baseToken" p) as [e1|b] eqn:E1; simpl.
  { intros H. injection H as <-. exact (token_symbol_raises _ _ _ E1). }
  destruct (token_symbol "quoteToken" p) as [e2|q] eqn:E2; simpl.
  { intros H. injection H as <-. exact (token_symbol_raises _ _ _ E2). }
  destruct (dex_id p) as [e3|x] eqn:E3; simpl.
  { intros H. injection H as <-. exact (dex_id_raises _ _ E3). }
  discriminate.
Qed.

Lemma ratio_loop_raises (rs : list ratio_entry) (i : nat) (acc : list string) (e : pyexn) :
  ratio_loop i rs acc = inl e -> e = AttributeError.
Proof.
  rewrite ratio_loop_spec.
  destruct (mapM read_row rs) as [e'|rows] eqn:E; simpl; [|discriminate].
  intros H. injection H as <-.
  destruct (mapM_raised _ _ _ E) as [x [_ Hx]]. exact (read_row_raises x e' Hx).
Qed.

(** X6: whatever the response, [handle_ratio] never ends with [ValueError]
    or [OverflowError]: a liquidity or volume that does not parse never
    aborts the ratio report.  If it raises at all, it is [AttributeError]
    (the response or a naming field is not of the expected kind) or
    [TypeError] (the [pairs] field cannot be iterated). *)
Theorem ratio_report_never_fails_on_numbers (contract_address : string) (e : pyexn) :
  raised (handle_ratio http_get_json contract_address) = Some e ->
  (e = AttributeError \/ e = TypeError) /\ e <> ValueError /\ e <> OverflowError.
Proof.
  intros H.
  assert (He : e = AttributeError \/ e = TypeError).
  { unfold handle_ratio, run_report in H.
    destruct (fetch_token_endpoint http_get_json contract_address) as [d|data];
      [discriminate|].
    destruct (ratio_report data) as [e'|[text markdown]] eqn:E; [|discriminate].
    simpl in H. injection H as <-.
    unfold ratio_report in E.
    destruct (py_get data "pairs" PyNone) as [e1|got] eqn:E1; simpl in E.
    { injection E as <-. left. exact (py_get_raises _ _ _ _ E1). }
    destruct (negb (truthy (py_or got (PyList [])))); [discriminate|].
    destruct (py_iter (py_or got (PyList []))) as [e2|ps] eqn:E2; simpl in E.
    { injection E as <-. right.
      destruct (py_or got (PyList [])); simpl in E2; try discriminate;
        now injection E2. }
    destruct (collect_ratios ps) as [|x xs]; [discriminate|].
    destruct (ratio_loop 0 (sorted_reverse (x :: xs))
                [ratio_header (List.length (sorted_reverse (x :: xs)))])
      as [e3|ls] eqn:E3; simpl in E; [|discriminate].
    injection E as <-. left. exact (ratio_loop_raises _ _ _ _ E3). }
  split; [exact He|]. destruct He as [-> | ->]; split; discriminate.
Qed.

End Raising.

Lemma ratio_report_never_fails_on_numbers_witness :
  AttributeError <> ValueError
  /\ raised (handle_ratio (serve (PyList [])) home_token) = Some AttributeError.
Proof.
  split.
  - apply (ratio_report_never_fails_on_numbers (serve (PyList [])) home_token
             AttributeError eq_refl).
  - reflexivity.
Defined.

(** ** The rows of a ratio report *)

Section RatioRows.

Context {rt : PyRuntime}.

Lemma read_row_numbers (x : ratio_entry) (r : ratio_row) :
  read_row x = inr r ->
  r_ratio r = fst x /\ r_liquidity r = fst (fst (snd x)) /\ r_vol r = snd (fst (snd x)).
Proof.
  destruct x as [ratio [[l v] p]]. unfold read_row.
  destruct (token_symbol "baseToken" p) as [e|b]; [discriminate|].
  destruct (token_symbol "quoteToken" p) as [e|q]; [discriminate|].
  destruct (dex_id p) as [e|x]; [discriminate|].
  cbn [bind ret]. intros H. injection H as <-. now simpl.
Qed.

Lemma Forall2_right {A B : Type} (R : A -> B -> Prop) (P : B -> Prop) (l : list A)
    (bs : list B) :
  Forall2 R l bs -> (forall a b, In a l -> R a b -> P b) -> Forall P bs.
Proof.
  induction 1 as [|a b l bs Hab _ IH]; intros H; constructor.
  - apply (H a b); [now left | exact Hab].
  - apply IH. intros a' b' Hin. apply H. now right.
Qed.

(** X7: a ratio report that is sent has one row per eligible pair of the
    response (the count in its header), at least one; every row shows the
    liquidity and the volume parsed from one pair of the response, both
    above 0, and the ratio shown is that volume divided by that
    liquidity. *)
Theorem ratio_rows_from_pairs (d : list (string * pyobj)) (ps : list pyobj) (text : string) :
  lookup "pairs" d = Some (PyList ps) ->
  ratio_report (PyDict d) = inr (text, true) ->
  exists rows,
    text = ratio_text rows
    /\ List.length rows = List.length (filter ratio_eligible ps)
    /\ rows <> []
    /\ Forall (fun r =>
         gt0 (r_liquidity r) = true /\ gt0 (r_vol r) = true
         /\ r_ratio r = (r_vol r / r_liquidity r)%float
         /\ exists p, In p ps /\ liquidity_usd p = inr (r_liquidity r)
                      /\ volume_h24 p = inr (r_vol r)) rows.
Proof.
  intros Hd H. apply (ratio_report_markdown d ps text Hd) in H.
  destruct H as [Hne [rows [Hrows ->]]]. exists rows.
  assert (Hlen : List.length rows = List.length (filter ratio_eligible ps)).
  { rewrite (mapM_length _ _ _ Hrows).
    rewrite <- (Permutation_length (ratio_ranking_perm ps)).
    now rewrite collect_ratios_spec, length_map. }
  split; [reflexivity|]. split; [exact Hlen|]. split.
  - intros ->. apply Hne. rewrite collect_ratios_spec.
    destruct (filter ratio_eligible ps); [reflexivity | discriminate Hlen].
  - apply (Forall2_right _ _ _ _ (mapM_Forall2 _ _ _ Hrows)).
    intros x r Hx Hr. apply ratio_ranking_In in Hx.
    destruct Hx as [p [Hin [He ->]]].
    apply ratio_eligible_spec in He. destruct He as [l [v [Hl [Hv [Hl0 Hv0]]]]].
    rewrite (entry_of_eligible p l v Hl Hv) in Hr.
    apply read_row_numbers in Hr. simpl in Hr. destruct Hr as [-> [-> ->]].
    repeat split; try assumption. exists p. auto.
Qed.

End RatioRows.

Definition spec_ratio_text : string :=
  match ratio_report (PyDict (response spec_pairs)) with
  | inr (text, _) => text
  | inl _ => ""
  end.

Lemma ratio_rows_from_pairs_witness :
  exists rows, spec_ratio_text = ratio_text rows /\ List.length rows = 2.
Proof.
  destruct (ratio_rows_from_pairs (response spec_pairs) spec_pairs spec_ratio_text
              eq_refl) as [rows [Ht [Hlen _]]].
  - vm_compute. reflexivity.
  - exists rows. split; [exact Ht | exact Hlen].
Defined.

(** ** Records whose naming fields can be read *)

Section Readable.

Context {rt : PyRuntime}.

Variable http_get_json : string -> string + pyobj.

Lemma token_symbol_readable (outer : string) (items : list (string * pyobj)) :
  optional_token (lookup outer items) = true ->
  exists s, token_symbol outer (PyDict items) = inr s.
Proof.
  unfold token_symbol. simpl.
  destruct (lookup outer items) as [[| | | | |l|token]|]; simpl; try discriminate.
  - destruct (lookup "symbol" token) as [[| | | |s| |]|]; simpl; try discriminate;
      intros _; unfold py_or; simpl; eauto.
    destruct (negb (s =? "")%string); simpl; eauto.
  - intros _. unfold py_or. simpl. eauto.
Qed.

Lemma dex_id_readable (items : list (string * pyobj)) :
  optional_text (lookup "dexId" items) = true ->
  exists s, dex_id (PyDict items) = inr s.
Proof.
  unfold dex_id. simpl.
  destruct (lookup "dexId" items) as [[| | | |s| |]|]; simpl; try discriminate;
    intros _; unfold py_or; simpl; eauto.
  destruct (negb (s =? "")%string); simpl; eauto.
Qed.

Lemma names_ok_readable (p : pyobj) :
  names_ok p = true ->
  exists base quote dex,
    token_symbol "baseToken" p = inr base /\ token_symbol "quoteToken" p = inr quote
    /\ dex_id p = inr dex.
Proof.
  destruct p as [| | | | | |items]; try discriminate. unfold names_ok.
  intros H. apply andb_true_iff in H. destruct H as [H Hx].
  apply andb_true_iff in H. destruct H as [Hb Hq].
  destruct (token_symbol_readable "baseToken" items Hb) as [b Eb].
  destruct (token_symbol_readable "quoteToken" items Hq) as [q Eq].
  destruct (dex_id_readable items Hx) as [x Ex].
  exists b, q, x. auto.
Qed.

(** X8: when the response is an object whose [pairs] is a list of records
    with readable naming fields ([baseToken] and [quoteToken] absent or
    objects whose [symbol] is absent, null or a string; [dexId] absent,
    null or a string), [handle_ratio] raises nothing and sends exactly one
    reply, whatever the liquidity and volume fields hold; [handle_volume]
    does so as well provided the volume of every pair that passes the
    liquidity filter parses. *)
Theorem readable_records_get_a_reply (contract_address : string) (show_summary : bool)
    (d : list (string * pyobj)) (ps : list pyobj) :
  http_get_json (fetch_url contract_address) = inr (PyDict d) ->
  lookup "pairs" d = Some (PyList ps) ->
  forallb names_ok ps = true ->
  (exists text markdown,
     handle_ratio http_get_json contract_address =
       {| events := [Fetch (fetch_url contract_address); Reply text markdown];
          raised := None |})
  /\ ((forall p, In p (filter_pairs ps) -> exists v, volume_h24 p = inr v) ->
      exists text markdown,
        handle_volume http_get_json contract_address show_summary =
          {| events := [Fetch (fetch_url contract_address); Reply text markdown];
             raised := None |}).
Proof.
  intros Hfetch Hd Hok.
  assert (Hnames : forall p, In p ps -> names_ok p = true).
  { now apply forallb_forall. }
  unfold handle_ratio, handle_volume.
  rewrite !(run_report_fetched http_get_json contract_address _ _ Hfetch).
  split.
  - assert (H : exists text markdown, ratio_report (PyDict d) = inr (text, markdown)).
    { destruct ps as [|p0 ps0].
      { unfold ratio_report. simpl. rewrite Hd. simpl. eauto. }
      rewrite (ratio_report_pairs d _ Hd) by discriminate.
      set (ps := p0 :: ps0) in *.
      destruct (collect_ratios ps) as [|x xs] eqn:Ec; [cbn [ret]; eauto|].
      destruct (mapM_succeeds read_row (ratio_ranking ps)) as [rows Hrows].
      { apply Forall_forall. intros y Hy. apply ratio_ranking_In in Hy.
        destruct Hy as [p [Hin [_ ->]]].
        destruct (names_ok_readable p (Hnames p Hin)) as [b [q [x' [Eb [Eq Ex]]]]].
        unfold entry_of, read_row. rewrite Eb, Eq, Ex. cbn [bind ret]. eauto. }
      rewrite Hrows. cbn [bind ret]. eauto. }
    destruct H as [text [markdown ->]]. eauto.
  - intros Hvol.
    assert (H : exists text markdown,
               volume_report (PyDict d) show_summary = inr (text, markdown)).
    { destruct ps as [|p0 ps0].
      { unfold volume_report. simpl. rewrite Hd. simpl. eauto. }
      rewrite (volume_report_pairs d _ show_summary Hd) by discriminate.
      set (ps := p0 :: ps0) in *.
      destruct (filter_pairs ps) as [|x xs] eqn:Ef; [cbn [ret]; eauto|].
      rewrite <- Ef in *.
      rewrite sorted_by_volume by (apply Forall_forall; exact Hvol).
      cbn [bind ret].
      destruct (mapM_succeeds read_entry (volume_ranking (filter_pairs ps)))
        as [es Hes].
      { apply Forall_forall. intros p Hp.
        apply (Permutation_in _ (Permutation_sym (volume_ranking_perm _))) in Hp.
        apply filter_In in Hp. destruct Hp as [Hin Hliq].
        destruct (names_ok_readable p (Hnames p Hin)) as [b [q [x' [Eb [Eq Ex]]]]].
        apply has_liquidity_parses in Hliq. destruct Hliq as [l [El _]].
        unfold read_entry. rewrite Eb, Eq, Ex, El. cbn [bind ret]. eauto. }
      rewrite Hes. cbn [bind ret]. eauto. }
    destruct H as [text [markdown ->]]. eauto.
Qed.

End Readable.

Lemma readable_records_get_a_reply_witness :
  exists text markdown,
    handle_ratio (serve (PyDict (response bad_volume_pairs))) home_token =
      {| events := [Fetch (fetch_url home_token); Reply text markdown]; raised := None |}.
Proof.
  apply (readable_records_get_a_reply (serve (PyDict (response bad_volume_pairs)))
           home_token true (response bad_volume_pairs) bad_volume_pairs);
    reflexivity.
Defined.

(** ** Numbers that fail to parse, and the volume report *)

Section VolumeFailures.

Context {rt : PyRuntime}.

Variable http_get_json : string -> string + pyobj.

Lemma volume_loop_raises (show_summary : bool) (ps : list pyobj) :
  forall (i : nat) (st : loop_state) (e : pyexn),
    volume_loop show_summary i ps st = inl e -> e = AttributeError.
Proof.
  induction ps as [|p ps IH]; intros i st e; simpl; [discriminate|].
  destruct (token_symbol "baseToken" p) as [e1|b] eqn:E1; simpl.
  { intros H. injection H as <-. exact (token_symbol_raises _ _ _ E1). }
  destruct (token_symbol "quoteToken" p) as [e2|q] eqn:E2; simpl.
  { intros H. injection H as <-. exact (token_symbol_raises _ _ _ E2). }
  destruct (dex_id p) as [e3|x] eqn:E3; simpl.
  { intros H. injection H as <-. exact (dex_id_raises _ _ E3). }
  destruct (liquidity_usd p); apply IH.
Qed.

(** X9: [handle_volume] ends with [ValueError] or [OverflowError] only
    because of a volume: the response is then an object whose [pairs] is a
    list holding a pair that passes the liquidity filter and whose 24-hour
    volume fails to parse with that very exception.  A liquidity that does
    not parse never ends the report. *)
Theorem numeric_failure_comes_from_volume (contract_address : string) (show_summary : bool)
    (e : pyexn) :
  raised (handle_volume http_get_json contract_address show_summary) = Some e ->
  e = ValueError \/ e = OverflowError ->
  exists d ps p,
    http_get_json (fetch_url contract_address) = inr (PyDict d)
    /\ lookup "pairs" d = Some (PyList ps)
    /\ In p ps /\ has_liquidity p = true /\ volume_h24 p = inl e.
Proof.
  intros H He.
  assert (Hne : e <> AttributeError /\ e <> TypeError).
  { destruct He as [-> | ->]; split; discriminate. }
  destruct Hne as [Hattr Htype].
  unfold handle_volume, run_report, fetch_token_endpoint in H.
  destruct (http_get_json (fetch_url contract_address)) as [msg|data] eqn:Efetch;
    [discriminate|].
  destruct (volume_report data show_summary) as [e'|[text markdown]] eqn:E;
    [|discriminate].
  simpl in H. injection H as ->.
  destruct data as [| | | | | |d];
    try (unfold volume_report in E; simpl in E; injection E as <-; now elim Hattr).
  unfold volume_report in E. cbn [py_get] in E.
  destruct (lookup "pairs" d) as [v|] eqn:Ed; [|discriminate E].
  cbn [bind ret] in E. unfold py_or in E.
  destruct (truthy v) eqn:Ev; [|discriminate E].
  cbv iota in E. rewrite Ev in E. cbn [negb] in E. cbv iota in E.
  destruct v as [| | | |s|ps|keyed];
    try (simpl in E; injection E as <-; now elim Htype).
  - destruct (keyed_or_text_iter (PyStr s)) as [_ [ps [Hps [_ Hstr]]]].
    { destruct s; [discriminate Ev | reflexivity]. }
    rewrite Hps in E. cbn [bind ret] in E.
    rewrite (proj1 (strs_dropped ps Hstr)) in E. discriminate E.
  - cbn [py_iter bind ret] in E.
    destruct (filter_pairs ps) as [|x xs] eqn:Ef; [discriminate E|].
    rewrite <- Ef in E.
    destruct (sorted_by_key volume_h24 (filter_pairs ps)) as [e1|pairs_sorted] eqn:Es.
    + cbn [bind] in E. injection E as ->. unfold sorted_by_key in Es.
      destruct (mapM volume_h24 (filter_pairs ps)) as [e2|keys] eqn:Ek; [|discriminate Es].
      cbn [bind] in Es. injection Es as ->.
      destruct (mapM_raised _ _ _ Ek) as [p [Hp Hv]]. apply filter_In in Hp.
      exists d, ps, p. tauto.
    + cbn [bind ret] in E.
      destruct (volume_loop show_summary 0 pairs_sorted _) as [e1|st] eqn:El;
        [|discriminate E].
      cbn [bind] in E. injection E as ->.
      elim Hattr. exact (volume_loop_raises _ _ _ _ _ El).
  - destruct (keyed_or_text_iter (PyDict keyed)) as [_ [ps [Hps [_ Hstr]]]].
    { destruct keyed; [discriminate Ev | reflexivity]. }
    rewrite Hps in E. cbn [bind ret] in E.
    rewrite (proj1 (strs_dropped ps Hstr)) in E. discriminate E.
Qed.

End VolumeFailures.

Lemma numeric_failure_comes_from_volume_witness :
  exists p, In p bad_volume_pairs /\ has_liquidity p = true
            /\ volume_h24 p = inl ValueError.
Proof.
  destruct (numeric_failure_comes_from_volume
              (serve (PyDict (response bad_volume_pairs))) home_token true ValueError)
    as [d [ps [p [Hf [Hd H]]]]].
  - vm_compute. reflexivity.
  - now left.
  - injection Hf as <-. injection Hd as <-. exists p. exact H.
Defined.

(** ** What the summary flag changes *)

(** The three lines [handle_volume] appends when [show_summary] is set, as
    they appear in the text. *)
Definition summary_block (subtotal others : string) : string :=
  ("📊 Summary (24H Volume):" ++ nl
   ++ ("- SOL/DRIP (raydium): *" ++ subtotal ++ "*") ++ nl
   ++ ("- All others combined: *" ++ others ++ "*"))%string.

Lemma join_app (sep : string) (l l' : list string) :
  l <> [] -> l' <> [] -> join sep (l ++ l') = (join sep l ++ sep ++ join sep l')%string.
Proof.
  intros Hl Hl'. induction l as [|a [|b r] IH]; [now elim Hl| |].
  - destruct l' as [|a' r']; [now elim Hl'|]. reflexivity.
  - change (join sep ((a :: b :: r) ++ l'))
      with (a ++ sep ++ join sep ((b :: r) ++ l'))%string.
    rewrite IH by discriminate.
    change (join sep (a :: b :: r)) with (a ++ sep ++ join sep (b :: r))%string.
    now rewrite !string_app_assoc.
Qed.

Section SummaryFlag.

Context {rt : PyRuntime}.

Variable http_get_json : string -> string + pyobj.

(** The loop with and without the flag: the same raise, or the same lines
    and the same total. *)
Lemma volume_loop_flag (ps : list pyobj) :
  forall (i : nat) (st0 st1 : loop_state),
    lines st0 = lines st1 -> total_volume st0 = total_volume st1 ->
    match volume_loop false i ps st0, volume_loop true i ps st1 with
    | inl e0, inl e1 => e0 = e1
    | inr s0, inr s1 =>
        lines s0 = lines s1 /\ total_volume s0 = total_volume s1
        /\ exists more, lines s0 = lines st0 ++ more
    | _, _ => False
    end.
Proof.
  induction ps as [|p ps IH]; intros i st0 st1 Hl Ht; simpl.
  - split; [exact Hl|]. split; [exact Ht|]. exists []. now rewrite app_nil_r.
  - destruct (token_symbol "baseToken" p) as [e|b]; simpl; [reflexivity|].
    destruct (token_symbol "quoteToken" p) as [e|q]; simpl; [reflexivity|].
    destruct (dex_id p) as [e|x]; simpl; [reflexivity|].
    destruct (liquidity_usd p) as [e|l]; [now apply IH|].
    match goal with
    | |- match volume_loop false _ _ ?a with _ => _ end =>
        match goal with
        | |- context [volume_loop true _ _ ?b] =>
            specialize (IH (S i) a b ltac:(simpl; now rewrite Hl)
                          ltac:(simpl; now rewrite Ht));
            revert IH;
            destruct (volume_loop false (S i) ps a) as [e0|s0];
            destruct (volume_loop true (S i) ps b) as [e1|s1]; intros IH;
            try exact IH
        end
    end.
    destruct IH as [H1 [H2 [more H3]]]. split; [exact H1|]. split; [exact H2|].
    eexists. rewrite H3. cbn [lines]. rewrite <- app_assoc. reflexivity.
Qed.

Lemma volume_report_flag (data : pyobj) :
  match volume_report data false with
  | inl e => volume_report data true = inl e
  | inr (text, false) => volume_report data true = inr (text, false)
  | inr (text, true) =>
      exists subtotal others,
        volume_report data true =
        inr ((text ++ nl ++ summary_block subtotal others)%string, true)
  end.
Proof.
  unfold volume_report.
  destruct (py_get data "pairs" PyNone) as [e|got]; cbn [bind ret]; [reflexivity|].
  destruct (negb (truthy (py_or got (PyList [])))); [reflexivity|].
  destruct (py_iter (py_or got (PyList []))) as [e|ps]; cbn [bind ret]; [reflexivity|].
  destruct (filter_pairs ps) as [|x xs]; [reflexivity|].
  destruct (sorted_by_key volume_h24 (x :: xs)) as [e|pairs_sorted]; cbn [bind ret];
    [reflexivity|].
  set (st := {| lines := [volume_header (List.length pairs_sorted)];
                total_volume := fzero; sol_ray_vol := fzero |}).
  pose proof (volume_loop_flag pairs_sorted 0 st st eq_refl eq_refl) as H.
  destruct (volume_loop false 0 pairs_sorted st) as [e0|s0];
    destruct (volume_loop true 0 pairs_sorted st) as [e1|s1]; cbn [bind ret];
    try contradiction.
  - now rewrite H.
  - destruct H as [Hl [_ [more Hm]]].
    exists (format_usd (PyFloat (sol_ray_vol s1))),
           (format_usd (PyFloat (total_volume s1 - sol_ray_vol s1))).
    unfold volume_text. rewrite app_nil_r, <- Hl.
    rewrite join_app; [reflexivity | | discriminate].
    rewrite Hm. discriminate.
Qed.

(** X10: the summary flag only appends.  With and without it,
    [handle_volume] raises the same exception or none; a run that raises or
    that answers in plain text (a failed request, no pairs, no liquid pair)
    is the same run; and where the run without the flag sends a report, the
    run with it sends that same text followed by a newline and the three
    summary lines. *)
Theorem summary_only_appends (contract_address : string) :
  let plain := handle_volume http_get_json contract_address false in
  let full := handle_volume http_get_json contract_address true in
  raised full = raised plain
  /\ (raised plain <> None -> full = plain)
  /\ (forall text, In (Reply text false) (events plain) -> full = plain)
  /\ (forall text, In (Reply text true) (events plain) ->
      exists subtotal others,
        full = {| events := [Fetch (fetch_url contract_address);
                             Reply (text ++ nl ++ summary_block subtotal others)%string
                                   true];
                  raised := None |}).
Proof.
  unfold handle_volume, run_report.
  destruct (fetch_token_endpoint http_get_json contract_address) as [msg|data].
  { cbv zeta. split; [reflexivity|]. split; [reflexivity|]. split; [reflexivity|].
    intros text [H|[H|[]]]; discriminate H. }
  pose proof (volume_report_flag data) as H.
  destruct (volume_report data false) as [e|[text [|]]].
  - rewrite H. cbv zeta. split; [reflexivity|]. split; [reflexivity|].
    split; [reflexivity|]. intros t [H'|[]]. discriminate H'.
  - destruct H as [subtotal [others ->]]. cbv zeta. split; [reflexivity|].
    split; [intros H; now elim H|]. split.
    + intros t [H|[H|[]]]; discriminate H.
    + intros t [H|[H|[]]]; [discriminate H|]. injection H as <-.
      now exists subtotal, others.
  - rewrite H. cbv zeta. split; [reflexivity|]. split; [reflexivity|].
    split; [reflexivity|]. intros t [H'|[H'|[]]]; discriminate H'.
Qed.

End SummaryFlag.

(** ** The two reports on the same response *)

Section BothReports.

Context {rt : PyRuntime}.

Variable http_get_json : string -> string + pyobj.

(** A pair that [handle_ratio] ranks passes the filter of [handle_volume]. *)
Lemma eligible_has_liquidity (p : pyobj) :
  ratio_eligible p = true -> has_liquidity p = true.
Proof.
  intros H. apply ratio_eligible_spec in H. destruct H as [l [v [Hl [_ [Hl0 _]]]]].
  apply has_liquidity_parses. now exists l.
Qed.

Lemma no_liquid_no_eligible (ps : list pyobj) :
  filter_pairs ps = [] -> collect_ratios ps = [].
Proof.
  intros H. apply none_eligible. apply Forall_forall. intros p Hp.
  destruct (ratio_eligible p) eqn:E; [|reflexivity].
  assert (Hin : In p (filter_pairs ps)).
  { apply filter_In. split; [exact Hp | now apply eligible_has_liquidity]. }
  rewrite H in Hin. destruct Hin.
Qed.

Lemma plain_volume_report (data : pyobj) (show_summary : bool) (text : string) :
  volume_report data show_summary = inr (text, false) ->
  (text = no_pairs_text /\ ratio_report data = inr (no_pairs_text, false))
  \/ (text = no_liquidity_text /\ ratio_report data = inr (no_ratio_text, false)).
Proof.
  unfold volume_report, ratio_report.
  destruct (py_get data "pairs" PyNone) as [e|got]; cbn [bind ret]; [discriminate|].
  destruct (negb (truthy (py_or got (PyList [])))).
  { intros H. injection H as <-. now left. }
  destruct (py_iter (py_or got (PyList []))) as [e|ps]; cbn [bind ret]; [discriminate|].
  destruct (filter_pairs ps) as [|x xs] eqn:Ef.
  - intros H. injection H as <-. right. split; [reflexivity|].
    now rewrite (no_liquid_no_eligible ps Ef).
  - destruct (sorted_by_key volume_h24 (x :: xs)) as [e|pairs_sorted]; cbn [bind ret];
      [discriminate|].
    destruct (volume_loop show_summary 0 pairs_sorted _) as [e|st]; cbn [bind ret];
      discriminate.
Qed.

(** X11: the two reports agree on when there is nothing to report.
    Whenever [handle_volume] answers in plain text (the request failed, the
    response has no pairs, or no pair has liquidity above 0), [handle_ratio]
    on the same response answers in plain text as well, with the same text,
    except that "No valid LP pairs with liquidity found." becomes "No valid
    pairs with ratio data found.": every pair the ratio report ranks passes
    the liquidity filter of the volume report. *)
Theorem plain_volume_reply_plain_ratio_reply (contract_address : string)
    (show_summary : bool) (text : string) :
  In (Reply text false) (events (handle_volume http_get_json contract_address show_summary)) ->
  handle_ratio http_get_json contract_address =
    {| events := [Fetch (fetch_url contract_address);
                  Reply (if (text =? no_liquidity_text)%string then no_ratio_text else text)
                        false];
       raised := None |}
  /\ forall p, ratio_eligible p = true -> has_liquidity p = true.
Proof.
  intros H. split; [|exact eligible_has_liquidity].
  unfold handle_volume, handle_ratio, run_report in *.
  destruct (fetch_token_endpoint http_get_json contract_address) as [msg|data].
  { destruct H as [H|[H|[]]]; [discriminate H|]. injection H as <-. reflexivity. }
  destruct (volume_report data show_summary) as [e|[t m]] eqn:E.
  { destruct H as [H|[]]. discriminate H. }
  destruct H as [H|[H|[]]]; [discriminate H|]. injection H as -> ->.
  destruct (plain_volume_report data show_summary text E) as [[-> ->]|[-> ->]];
    reflexivity.
Qed.

End BothReports.

Lemma plain_volume_reply_plain_ratio_reply_witness :
  handle_ratio (serve (PyDict (response illiquid_pairs))) home_token =
    {| events := [Fetch (fetch_url home_token);
                  Reply "No valid pairs with ratio data found." false];
       raised := None |}.
Proof.
  apply (plain_volume_reply_plain_ratio_reply (serve (PyDict (response illiquid_pairs)))
           home_token true no_liquidity_text).
  vm_compute. right. left. reflexivity.
Defined.

Section SharedRows.

Context {rt : PyRuntime}.

Lemma Forall2_In_left {A B : Type} (R : A -> B -> Prop) (l : list A) (bs : list B) (a : A) :
  Forall2 R l bs -> In a l -> exists b, In b bs /\ R a b.
Proof.
  induction 1 as [|a' b l bs Hab _ IH]; intros Hin; [destruct Hin|].
  destruct Hin as [->|Hin].
  - exists b. split; [now left | exact Hab].
  - destruct (IH Hin) as [b' [Hb' Hr]]. exists b'. split; [now right | exact Hr].
Qed.

(** An eligible pair read by both loops gives the same names and numbers. *)
Lemma read_entry_row (p : pyobj) (e : entry) (r : ratio_row) :
  read_entry p = inr e -> read_row (entry_of p) = inr r ->
  e_base e = r_base r /\ e_quote e = r_quote r /\ e_dex e = r_dex r
  /\ e_liquidity e = r_liquidity r /\ e_vol e = r_vol r.
Proof.
  unfold read_entry, read_row, entry_of, filter_liquidity.
  destruct (token_symbol "baseToken" p) as [x|b]; [discriminate|].
  destruct (token_symbol "quoteToken" p) as [x|q]; [discriminate|].
  destruct (dex_id p) as [x|dex]; [discriminate|].
  destruct (liquidity_usd p) as [x|l]; [discriminate|].
  cbn [bind ret]. intros He Hr. injection He as <-. injection Hr as <-.
  simpl. auto.
Qed.

(** X12: when both reports are sent for the same response, every row of
    the ratio report is a block of the volume report: the same base and
    quote symbols and exchange, the same liquidity and the same 24-hour
    volume; so the ratio report never lists more pairs than the volume
    report. *)
Theorem ratio_rows_among_volume_blocks (d : list (string * pyobj)) (ps : list pyobj)
    (show_summary : bool) (vtext rtext : string) :
  lookup "pairs" d = Some (PyList ps) ->
  volume_report (PyDict d) show_summary = inr (vtext, true) ->
  ratio_report (PyDict d) = inr (rtext, true) ->
  exists es rows,
    vtext = volume_text show_summary (rendered show_summary es)
    /\ rtext = ratio_text rows
    /\ List.length rows <= List.length es
    /\ Forall (fun r => exists e, In e es
                 /\ e_base e = r_base r /\ e_quote e = r_quote r /\ e_dex e = r_dex r
                 /\ e_liquidity e = r_liquidity r /\ e_vol e = r_vol r) rows.
Proof.
  intros Hd Hv Hr.
  apply (volume_report_markdown d ps show_summary vtext Hd) in Hv.
  destruct Hv as [_ [_ [es [Hes ->]]]].
  apply (ratio_report_markdown d ps rtext Hd) in Hr.
  destruct Hr as [_ [rows [Hrows ->]]].
  exists es, rows. split; [reflexivity|]. split; [reflexivity|].
  assert (Hsub : forall p, In p ps -> ratio_eligible p = true ->
                           In p (volume_ranking (filter_pairs ps))).
  { intros p Hin He. apply (Permutation_in _ (volume_ranking_perm _)).
    apply filter_In. split; [exact Hin | now apply eligible_has_liquidity]. }
  split.
  - rewrite (mapM_length _ _ _ Hrows), (mapM_length _ _ _ Hes).
    rewrite <- (Permutation_length (ratio_ranking_perm ps)).
    rewrite <- (Permutation_length (volume_ranking_perm _)).
    rewrite collect_ratios_spec, length_map. unfold filter_pairs.
    clear. induction ps as [|p ps IH]; simpl; [lia|].
    destruct (ratio_eligible p) eqn:E.
    + rewrite (eligible_has_liquidity p E). simpl. lia.
    + destruct (has_liquidity p); simpl; lia.
  - apply (Forall2_right _ _ _ _ (mapM_Forall2 _ _ _ Hrows)).
    intros x r Hx Hread. apply ratio_ranking_In in Hx.
    destruct Hx as [p [Hin [He ->]]].
    destruct (Forall2_In_left _ _ _ p (mapM_Forall2 _ _ _ Hes) (Hsub p Hin He))
      as [e [Hein Hentry]].
    exists e. split; [exact Hein|]. exact (read_entry_row p e r Hentry Hread).
Qed.

End SharedRows.

Lemma ratio_rows_among_volume_blocks_witness :
  exists es rows,
    spec_volume_text = volume_text true (rendered true es)
    /\ spec_ratio_text = ratio_text rows
    /\ List.length rows <= List.length es.
Proof.
  destruct (ratio_rows_among_volume_blocks (response spec_pairs) spec_pairs true
              spec_volume_text spec_ratio_text eq_refl) as [es [rows [Hv [Hr [Hle _]]]]].
  - vm_compute. reflexivity.
  - vm_compute. reflexivity.
  - exists es, rows. auto.
Defined.
